(** * mage-module-staticdata: the schema engine of [src/index.ts]

    A shallow embedding of the field registry ([StaticData],
    [computeMetadata]), the schema extractor ([extractMetaData]), the
    walker ([walk], [parseAttribute]) and the module life cycle
    ([setup], [import], [validate], [parse]) of [src/index.ts], and the
    properties the specification states about them.

    Conventions of the embedding.
    - A JavaScript exception is a [Throw e]; a call that returns is an
      [Ok v].
    - The call stack is finite: every recursive function takes the number
      of frames it may still push, and throws [RangeError] ("Maximum call
      stack size exceeded") when none is left, as the engine does.
    - An [async function] returns a promise.  A promise is represented by
      the state of the function body at the moment the promise is handed
      to the caller: either already settled, or suspended at an [await]
      together with the local variables the body will resume with.
      [resume] runs one continuation (one microtask); [settle] runs the
      body to its end.
    - The validation library, [JSON], the reflection metadata and the
      place the data is stored in are collaborators: they are parameters.

    What is left out: numbers other than integers; properties inherited
    from [Object.prototype]; constructors and property initialisers
    written by hand (a class is instantiated to an object without own
    properties); a registry inherited from a parent class; field names
    that are array indices (which [Object.keys] would list first). *)

From Stdlib Require Import DecimalString.
From stdpp Require Import base option list strings gmap fin_maps.

(** ** Exceptions and results *)

Inductive error :=
| TypeError (msg : string)
| Error (msg : string)          (* [new Error(msg)] *)
| RangeError                    (* call stack exhausted *)
| ValidationError (violations : list string)
| ExternalError (origin : string). (* raised by a collaborator: fs, zlib, JSON *)

Inductive result (A : Type) :=
| Ok (a : A)
| Throw (e : error).
Arguments Ok {A} a.
Arguments Throw {A} e.

Definition rbind {A B} (r : result A) (k : A → result B) : result B :=
  match r with
  | Ok a => k a
  | Throw e => Throw e
  end.

Notation "'let!' x ':=' r 'in' k" := (rbind r (fun x => k))
  (at level 10, x name, r at level 100, k at level 200, only parsing).

Definition is_ok {A} (r : result A) : bool :=
  match r with Ok _ => true | Throw _ => false end.

(** ** Values *)

Abbreviation class_id := string (only parsing).

(** [ValueType], lines 21-25. *)
Inductive ValueType := Scalar | Array | Object.

(** Untyped data (the output of [JSON.parse]) and what [walk] builds from
    it.  [VInst c fs] is an instance of class [c] with own properties
    [fs], in creation order; [VPromise t] is the promise of an
    [async function] whose body is in state [t]. *)
#[local] Unset Elimination Schemes.
Inductive value :=
| VUndefined
| VNull
| VBool (b : bool)
| VNum (n : Z)
| VStr (s : string)
| VArr (elems : list value)
| VObj (props : list (string * value))
| VInst (cls : class_id) (props : list (string * value))
| VPromise (t : task)

(** What [keyMeta.opts] (the decorator's second argument) can be: nothing,
    a class, or any other payload.  A payload has no [_staticDataMeta]
    member: whatever carries one is, for this code, a class. *)
with opts_t :=
| OptUndefined
| OptClass (c : class_id)
| OptPayload (v : value)

(** The body of [parseAttribute], lines 154-173, as its caller sees it. *)
with task :=
| Settled (o : outcome)
| Suspended (awaited : value) (k : kont)
  (* [validator.validate(awaited)] has been called and the body waits
     for it at the [await] of line 163 or 170 *)

with outcome :=
| Fulfilled (v : value)
| Rejected (e : error)

(** The locals a suspended body resumes with. *)
with kont :=
| KObject
  (* line 170: [instance] is the awaited value; [return instance] is left *)
| KArray (arrayInstance : list value) (rest : list value) (nested : opts_t).
  (* line 163: [childInstance] is the awaited value; it is pushed on
     [arrayInstance], then the [for ... of] goes on with [rest] *)
#[local] Set Elimination Schemes.

(** [IMetaData], lines 43-47, and [IMetaDataMap], lines 49-51: a
    JavaScript object used as a map, its keys in insertion order (field
    names are identifiers, so [Object.keys] lists them in that order). *)
Record IMetaData := {
  remoteName : string;
  opts : opts_t;
  type : ValueType
}.

Abbreviation IMetaDataMap := (list (string * IMetaData)) (only parsing).

(** The classes of the program, each with its static [_staticDataMeta]
    slot; a class that is not in the table has the slot [undefined]. *)
Abbreviation classes := (gmap class_id IMetaDataMap).

#[global] Instance ValueType_eq_dec : EqDecision ValueType.
Proof. solve_decision. Defined.

(** ** JavaScript objects as ordered maps *)

Section props.
Context {A : Type}.

(** [o[key]] on own properties. *)
Fixpoint prop_lookup (key : string) (o : list (string * A)) : option A :=
  match o with
  | [] => None
  | (k, v) :: o' => if String.eqb key k then Some v else prop_lookup key o'
  end.

(** [o[key] = v]: an existing key keeps its place, a new one goes last. *)
Fixpoint prop_assign (key : string) (v : A) (o : list (string * A))
  : list (string * A) :=
  match o with
  | [] => [(key, v)]
  | (k, w) :: o' =>
      if String.eqb key k then (k, v) :: o' else (k, w) :: prop_assign key v o'
  end.

(** [Object.keys(o)] *)
Definition own_keys (o : list (string * A)) : list string := map fst o.
End props.

(** The representation invariant of an object: no key twice. *)
Definition wf_props {A} (o : list (string * A)) : Prop := NoDup (own_keys o).

(** ** Reading untyped data *)

(** [ToBoolean]. *)
Definition truthy (v : value) : bool :=
  match v with
  | VUndefined | VNull => false
  | VBool b => b
  | VNum n => negb (Z.eqb n 0)
  | VStr s => negb (String.eqb s "")
  | _ => true
  end.

Definition decimal (i : nat) : string := NilEmpty.string_of_uint (Nat.to_uint i).

(** The position a key names in an array or string of length [n]. *)
Definition index_of_key (key : string) (n : nat) : option nat :=
  List.find (fun i => String.eqb key (decimal i)) (seq 0 n).

Definition chars (s : string) : list value :=
  (fun c => VStr (String c "")) <$> String.list_ascii_of_string s.

(** [data[key]].  Only own data properties are modelled (and [length] and
    the indices of arrays and strings); reading a property of [undefined]
    or [null] throws. *)
Definition get_prop (data : value) (key : string) : result value :=
  match data with
  | VUndefined | VNull =>
      Throw (TypeError "Cannot read properties of undefined or null")
  | VObj props | VInst _ props => Ok (default VUndefined (prop_lookup key props))
  | VArr elems =>
      if String.eqb key "length" then Ok (VNum (Z.of_nat (length elems)))
      else Ok (default VUndefined (i ← index_of_key key (length elems); elems !! i))
  | VStr s =>
      if String.eqb key "length" then Ok (VNum (Z.of_nat (String.length s)))
      else Ok (default VUndefined (i ← index_of_key key (String.length s); chars s !! i))
  | VBool _ | VNum _ | VPromise _ => Ok VUndefined
  end.

Definition is_promise (v : value) : bool :=
  match v with VPromise _ => true | _ => false end.

(** What [for (const x of val)] iterates over. *)
Definition iterate (val : value) : result (list value) :=
  match val with
  | VArr elems => Ok elems
  | VStr s => Ok (chars s)
  | _ => Throw (TypeError "val is not iterable")
  end.

(** [new Target()]: classes have the implicit constructor and no property
    initialisers, so a new instance has no own property. *)
Definition construct (Target : opts_t) : result value :=
  match Target with
  | OptClass c => Ok (VInst c [])
  | _ => Throw (TypeError "Target is not a constructor")
  end.

(** [instance[key] = v] *)
Definition set_prop (instance : value) (key : string) (v : value) : value :=
  match instance with
  | VInst c props => VInst c (prop_assign key v props)
  | VObj props => VObj (prop_assign key v props)
  | other => other
  end.

(** [Object.keys(meta)] where [meta] may be [undefined]. *)
Definition Object_keys {A} (meta : option (list (string * A))) : result (list string) :=
  match meta with
  | None => Throw (TypeError "Cannot convert undefined or null to object")
  | Some m => Ok (own_keys m)
  end.

Section with_classes.
Variable ct : classes.

(** [Target._staticDataMeta] *)
Definition staticDataMeta_of (Target : opts_t) : option IMetaDataMap :=
  match Target with
  | OptClass c => ct !! c
  | _ => None
  end.

(** [opts && opts._staticDataMeta], as a condition. *)
Definition is_schema_class (o : opts_t) : bool :=
  match o with
  | OptClass c => bool_decide (is_Some (ct !! c))
  | _ => false
  end.
End with_classes.

(** ** Type Classifier: [computeMetadata], lines 75-91 *)

(** The constructors TypeScript emits as [design:type] metadata. *)
Inductive builtin := BString | BNumber | BBoolean | BArray | BObject | BFunction.

Inductive constructor :=
| Builtin (b : builtin)
| SymbolCtor                      (* [Symbol] cannot be called with [new] *)
| NoDesignType                    (* [undefined]: no metadata was emitted *)
| ClassCtor (c : class_id) (root : builtin).
  (* a class of the program; [root] is the builtin its [extends] chain
     ends in, [BObject] when it extends nothing *)

Inductive prototype := PBuiltin (b : builtin) | PClass (c : class_id).

#[global] Instance builtin_eq_dec : EqDecision builtin.
Proof. solve_decision. Defined.
#[global] Instance prototype_eq_dec : EqDecision prototype.
Proof. solve_decision. Defined.

(** What the classifier looks at in [new Info()]: its prototype chain
    ([instanceof]) and whether it is an exotic array ([Array.isArray]). *)
Record js_object := {
  prototypes : list prototype;
  exotic_array : bool
}.

Definition new_builtin (b : builtin) : js_object :=
  match b with
  | BObject => {| prototypes := [PBuiltin BObject]; exotic_array := false |}
  | BArray => {| prototypes := [PBuiltin BArray; PBuiltin BObject]; exotic_array := true |}
  | _ => {| prototypes := [PBuiltin b; PBuiltin BObject]; exotic_array := false |}
  end.

(** [new Info()] *)
Definition instantiate (Info : constructor) : result js_object :=
  match Info with
  | Builtin b => Ok (new_builtin b)
  | SymbolCtor => Throw (TypeError "Symbol is not a constructor")
  | NoDesignType => Throw (TypeError "Info is not a constructor")
  | ClassCtor c root =>
      Ok {| prototypes := PClass c :: prototypes (new_builtin root);
            exotic_array := exotic_array (new_builtin root) |}
  end.

Definition instanceof (o : js_object) (b : builtin) : bool :=
  bool_decide (PBuiltin b ∈ prototypes o).

Definition Array_isArray (o : js_object) : bool := exotic_array o.

Section registry.
(** [Reflect.getMetadata('design:type', target, key)] *)
Variable design_type : class_id → string → constructor.

Definition computeMetadata (target : class_id) (key remoteName : string)
    (opts : opts_t) : result IMetaData :=
  let Info := design_type target key in
  let! instance := instantiate Info in
  let type := Object in
  let type :=
    if instanceof instance BString || instanceof instance BNumber
       || instanceof instance BBoolean
    then Scalar
    else if Array_isArray instance then Array
    else type in
  Ok {| remoteName := remoteName; opts := opts; type := type |}.

(** ** Field Descriptor Registry: the decorator [StaticData], lines 189-200

    [StaticData remoteName childClass target key] is the decorator
    applied to property [key] of class [target].  The classes of the
    table do not extend one another: [type._staticDataMeta] is the own
    slot of the class.  (In the source the slot is found through the
    prototype chain of the constructor, so the decorators of a subclass
    of an annotated class write into the registry of the parent; no
    property below is about such classes.) *)
Definition StaticData (remoteName : string) (childClass : opts_t)
    (target : class_id) (key : string) (ct : classes) : result classes :=
  let type := target in
  let! meta := computeMetadata target key remoteName childClass in
  let ct := if bool_decide (ct !! type = None) then <[type := []]> ct else ct in
  Ok (alter (prop_assign key meta) type ct).

(** One annotated property: [@StaticData(remote, child) key]. *)
Record annotation := {
  a_key : string;
  a_remote : string;
  a_child : opts_t
}.

(** The decorators of a class body, run one after the other; the first
    one that throws aborts the class definition. *)
Fixpoint annotate (target : class_id) (body : list annotation) (ct : classes)
  : result classes :=
  match body with
  | [] => Ok ct
  | a :: body' =>
      let! ct' := StaticData (a_remote a) (a_child a) target (a_key a) ct in
      annotate target body' ct'
  end.
End registry.

(** The descriptor registered for [(c, key)], if any. *)
Definition descriptor (ct : classes) (c : class_id) (key : string) : option IMetaData :=
  ct !! c ≫= prop_lookup key.

(** ** Loops *)

(** [for (const x of xs) body]: the loop stops at the first exception. *)
Fixpoint for_of {A S} (xs : list A) (body : A → S → result S) (s : S) : result S :=
  match xs with
  | [] => Ok s
  | x :: xs' => let! s' := body x s in for_of xs' body s'
  end.

(** ** Schema Extractor: [extractMetaData], lines 98-118 *)

#[local] Unset Elimination Schemes.
Inductive entry :=
| Entry (name : string) (type : ValueType) (meta : meta_t)
with meta_t :=
| MetaNested (s : list (string * entry))
| MetaOpts (o : opts_t).
#[local] Set Elimination Schemes.

Definition schema := list (string * entry).

Section extractor.
Variable ct : classes.

Fixpoint extractMetaData (stack : nat) (target : opts_t) : result schema :=
  match stack with
  | 0 => Throw RangeError
  | S depth =>
      let meta := staticDataMeta_of ct target in
      let! keys := Object_keys meta in
      let ret : schema := [] in
      for_of keys (fun key ret =>
        match meta ≫= prop_lookup key with
        | None => Throw (TypeError "Cannot destructure undefined")
        | Some {| opts := opts; remoteName := name; type := type |} =>
            let! meta :=
              if is_schema_class ct opts
              then let! nested := extractMetaData depth opts in Ok (MetaNested nested)
              else Ok (MetaOpts opts) in
            Ok (prop_assign key (Entry name type meta) ret)
        end) ret
  end.
End extractor.

(** ** Schema Walker: [walk], lines 128-145, and [parseAttribute],
       lines 154-173 *)

(** What the promise of [validator.validate(instance)] does: it resolves
    with a list of violations, or it rejects. *)
Inductive validation :=
| ValidationResolved (violations : list string)
| ValidationRejected (e : error).

Section walker.
Variable ct : classes.

(** The [for ... of] of lines 161-165 from any iteration on, up to its
    next [await] (or to the [return] of line 166). *)
Definition array_loop (walk : value → opts_t → result value)
    (nested : opts_t) (arrayInstance rest : list value) : task :=
  match rest with
  | [] => Settled (Fulfilled (VArr arrayInstance))
  | arrayVal :: rest' =>
      match walk arrayVal nested with
      | Throw e => Settled (Rejected e)
      | Ok childInstance => Suspended childInstance (KArray arrayInstance rest' nested)
      end
  end.

(** [walk] is a plain function: what it stores in [instance[key]] is the
    promise [parseAttribute] returns.  [parseAttribute] is an [async]
    function: what is thrown in its body rejects its promise. *)
Fixpoint walk (stack : nat) (data : value) (Target : opts_t) : result value :=
  match stack with
  | 0 => Throw RangeError
  | S depth =>
      let! instance := construct Target in
      let meta := staticDataMeta_of ct Target in
      let! keys := Object_keys meta in
      if bool_decide (meta = None)
      then Throw (Error "Missing metadata!")
      else
        for_of keys (fun key instance =>
          let keyMeta := meta ≫= prop_lookup key in
          let! val := get_prop data key in
          Ok (set_prop instance key (VPromise (parseAttribute depth val keyMeta))))
          instance
  end
with parseAttribute (stack : nat) (val : value) (keyMeta : option IMetaData) : task :=
  match stack with
  | 0 => Settled (Rejected RangeError)
  | S depth =>
      match keyMeta with
      | None => Settled (Rejected (TypeError "Cannot read properties of undefined"))
      | Some keyMeta =>
          match type keyMeta with
          | Scalar => Settled (Fulfilled val)
          | Array =>
              let arrayInstance := [] in
              match iterate val with
              | Throw e => Settled (Rejected e)
              | Ok elems => array_loop (walk depth) (opts keyMeta) arrayInstance elems
              end
          | Object =>
              match walk depth val (opts keyMeta) with
              | Throw e => Settled (Rejected e)
              | Ok instance => Suspended instance KObject
              end
          end
      end
  end.

(** *** Running the suspended bodies *)

Variable validate : value → validation.

(** One continuation: the awaited validation has settled and the body
    runs from its [await] to the next one, on a fresh stack of [depth]
    frames.  A rejection is thrown at the [await]; the value a
    validation resolves with is not looked at. *)
Definition resume (depth : nat) (t : task) : task :=
  match t with
  | Settled o => Settled o
  | Suspended awaited k =>
      match validate awaited with
      | ValidationRejected e => Settled (Rejected e)
      | ValidationResolved _ =>
          match k with
          | KObject => Settled (Fulfilled awaited)
          | KArray arrayInstance rest nested =>
              array_loop (walk depth) nested (arrayInstance ++ [awaited]) rest
          end
      end
  end.

(** The continuations a body can still need. *)
Definition pending_steps (t : task) : nat :=
  match t with
  | Settled _ => 0
  | Suspended _ KObject => 1
  | Suspended _ (KArray _ rest _) => S (length rest)
  end.

(** The promise once all its continuations have run. *)
Definition settle (depth : nat) (t : task) : task :=
  Nat.iter (pending_steps t) (resume depth) t.

(** The instances [validator.validate] is called on by one body, in
    call order, within [n] continuations. *)
Fixpoint validated_within (n depth : nat) (t : task) : list value :=
  match t with
  | Settled _ => []
  | Suspended awaited _ =>
      awaited :: match n with
                 | 0 => []
                 | S n' => validated_within n' depth (resume depth t)
                 end
  end.

Definition validated (depth : nat) (t : task) : list value :=
  validated_within (pending_steps t) depth t.
End walker.

(** ** The module: [AbstractStaticDataModule], lines 211-401 *)

(** What a module does to the outside, in order. *)
Inductive call :=
| CallLoad
| CallStore (data : string)
| CallCallback (error : option error).

(** The abstract members of the class and its collaborators.  [W] is the
    state of the place [load] reads from and [store] writes to (a local
    dump file by default, lines 236-253). *)
Class StaticDataModule (W : Type) := {
  StaticDataClass : class_id;
  load : W → result string * W;
  store : string → W → result unit * W;
  JSON_parse : value → result value;
  JSON_stringify : value → string
}.

Record module_state (W : Type) := {
  staticData : value;
  backend : W;
  calls : list call
}.
Arguments staticData {W} _.
Arguments backend {W} _.
Arguments calls {W} _.

(** Methods run on the module state and return or throw; an [await] on
    the promise of a method is the method call itself. *)
Definition M (W A : Type) : Type := module_state W → result A * module_state W.

#[global] Instance M_ret {W} : MRet (M W) := λ A a m, (Ok a, m).

#[global] Instance M_bind {W} : MBind (M W) := λ A B k c m,
  match c m with
  | (Ok a, m') => k a m'
  | (Throw e, m') => (Throw e, m')
  end.

Definition lift_result {W A} (r : result A) : M W A := fun m => (r, m).

(** [try { body } catch (error) { handler }] *)
Definition try_catch {W A} (body : M W A) (handler : error → M W A) : M W A :=
  fun m => match body m with
           | (Ok a, m') => (Ok a, m')
           | (Throw e, m') => handler e m'
           end.

Section module.
Context {W : Type} `{StaticDataModule W}.
Variable ct : classes.
Variable stack : nat.   (* the frames a method may push *)

Definition record (c : call) : M W unit :=
  fun m => (Ok (), {| staticData := staticData m; backend := backend m;
                      calls := calls m ++ [c] |}).

(** [this.staticData = v] *)
Definition set_staticData (v : value) : M W unit :=
  fun m => (Ok (), {| staticData := v; backend := backend m; calls := calls m |}).

Definition get_staticData : M W value := fun m => (Ok (staticData m), m).

(** A call to the place the data lives in. *)
Definition on_backend {A} (f : W → result A * W) : M W A :=
  fun m => let (r, w) := f (backend m) in
           (r, {| staticData := staticData m; backend := w; calls := calls m |}).

(** [this.load(state)] *)
Definition do_load : M W string :=
  record CallLoad ;; on_backend load.

(** [this.store(state, data)] *)
Definition do_store (data : string) : M W unit :=
  record (CallStore data) ;; on_backend (store data).

(** [parse], lines 383-388 *)
Definition parse (json : value) : result value :=
  let! data := JSON_parse json in
  walk ct stack data (OptClass StaticDataClass).

(** [stringify], lines 398-400; [None] is the omitted argument. *)
Definition stringify (data : option value) : M W string :=
  current ← get_staticData;
  let data := default VUndefined data in
  mret (JSON_stringify (if truthy data then data else current)).

(** [setup], lines 263-275 *)
Definition setup : M W unit :=
  try_catch
    (data ← do_load;
     parsed ← lift_result (parse (VStr data));
     set_staticData parsed)
    (fun error =>
       fresh ← lift_result (construct (OptClass StaticDataClass));
       set_staticData fresh) ;;
  record (CallCallback None).

(** [validate], lines 303-305 *)
Definition validate (data : value) : M W unit :=
  _ ← lift_result (parse data);   (* Will throw if invalid *)
  mret ().

(** [import], lines 287-291 *)
Definition import (data : value) : M W unit :=
  validate data ;;
  (json ← stringify (Some data); do_store json) ;;
  _ ← do_load;
  mret ().

(** [export], lines 316-321: the object [{data, schema}] as a pair. *)
Definition export : M W (value * schema) :=
  data ← get_staticData;
  schema ← lift_result (extractMetaData ct stack (OptClass StaticDataClass));
  mret (data, schema).
End module.

(** ** The classification rule, as the specification words it *)

Definition primitive_wrapper (o : js_object) : Prop :=
  PBuiltin BString ∈ prototypes o ∨ PBuiltin BNumber ∈ prototypes o
  ∨ PBuiltin BBoolean ∈ prototypes o.

Definition array_like (o : js_object) : Prop := exotic_array o = true.

Inductive classified (o : js_object) : ValueType → Prop :=
| classified_scalar : primitive_wrapper o → classified o Scalar
| classified_array : ¬ primitive_wrapper o → array_like o → classified o Array
| classified_object : ¬ primitive_wrapper o → ¬ array_like o → classified o Object.

(** ** The extraction rule, as the specification words it *)

(** What is emitted for one registered field: its local name, then the
    remote name, the kind, and as [meta] the schema extracted from the
    nested class when that is a schema class, the options as they are
    otherwise. *)
Definition emitted (ct : classes) (extracted : opts_t → result schema)
    (field : string * IMetaData) (out : string * entry) : Prop :=
  out.1 = field.1
  ∧ ∃ M, out.2 = Entry (remoteName field.2) (type field.2) M
         ∧ if is_schema_class ct (opts field.2)
           then ∃ nested, extracted (opts field.2) = Ok nested ∧ M = MetaNested nested
           else M = MetaOpts (opts field.2).

(** Every registry is an object: no local name twice. *)
Definition wf_classes (ct : classes) : Prop :=
  map_Forall (λ _ reg, wf_props (A := IMetaData) reg) ct.

#[global] Instance wf_props_dec {A} (o : list (string * A)) : Decision (wf_props o).
Proof. unfold wf_props. apply _. Defined.

#[global] Instance wf_classes_dec (ct : classes) : Decision (wf_classes ct).
Proof. unfold wf_classes. apply _. Defined.

(** The nested schema class of a field ranks below the class of the field. *)
Definition nested_below (ct : classes) (rank : string → nat)
    (c : string) (d : IMetaData) : bool :=
  match opts d with
  | OptClass c' => if is_schema_class ct (opts d) then bool_decide (rank c' < rank c) else true
  | _ => true
  end.

(** No schema class is nested in itself, directly or through others. *)
Definition acyclic (ct : classes) (rank : string → nat) : Prop :=
  map_Forall (λ c reg, Forall (λ field : string * IMetaData,
                                 nested_below ct rank c field.2 = true) reg) ct.

#[global] Instance acyclic_dec (ct : classes) rank : Decision (acyclic ct rank).
Proof. unfold acyclic. apply _. Defined.

(** The nesting below the schema class [c] is finite: [c] has a registry,
    and so has, in turn, every schema class one of its fields names.  In
    a class table this says that no nesting cycle can be reached from
    [c]; what other classes of the table do plays no part. *)
Inductive finitely_nested (ct : classes) : string → Prop :=
| finitely_nested_class (c : string) (reg : list (string * IMetaData)) :
    ct !! c = Some reg →
    (∀ k d c', prop_lookup k reg = Some d → opts d = OptClass c' →
               is_Some (ct !! c') → finitely_nested ct c') →
    finitely_nested ct c.

(** The entry of one field, as the loop body of [extractMetaData] computes
    it with [depth] frames left. *)
Definition extract_entry (ct : classes) (depth : nat) (reg : list (string * IMetaData))
    (key : string) : result entry :=
  match prop_lookup key reg with
  | None => Throw (TypeError "Cannot destructure undefined")
  | Some d =>
      let! meta :=
        if is_schema_class ct (opts d)
        then let! nested := extractMetaData ct depth (opts d) in Ok (MetaNested nested)
        else Ok (MetaOpts (opts d)) in
      Ok (Entry (remoteName d) (type d) meta)
  end.

(** The property the loop of [walk] assigns for one key, with [depth]
    frames left. *)
Definition walk_field (ct : classes) (depth : nat) (data : value)
    (reg : list (string * IMetaData)) (key : string) : result value :=
  let! val := get_prop data key in
  Ok (VPromise (parseAttribute ct depth val (prop_lookup key reg))).

(** ** Programs used in the examples *)

(** The scenario of the specification: [Item] with [id] and [tags], [Tag]
    with [label]. *)
Module Shop.
Definition design_type (c key : string) : constructor :=
  if String.eqb c "Item"
  then (if String.eqb key "id" then Builtin BNumber else Builtin BArray)
  else Builtin BString.

Definition Tag_body : list annotation :=
  [ {| a_key := "label"; a_remote := "Label"; a_child := OptUndefined |} ].

Definition Item_body : list annotation :=
  [ {| a_key := "id"; a_remote := "ID"; a_child := OptUndefined |};
    {| a_key := "tags"; a_remote := "Tags"; a_child := OptClass "Tag" |} ].

(** The class table once both class bodies have run. *)
Definition table : classes :=
  {[ "Tag" := [("label", {| remoteName := "Label"; opts := OptUndefined; type := Scalar |})];
     "Item" := [("id", {| remoteName := "ID"; opts := OptUndefined; type := Scalar |});
                ("tags", {| remoteName := "Tags"; opts := OptClass "Tag"; type := Array |})] ]}.

Definition rank (c : string) : nat := if String.eqb c "Item" then 1 else 0.

Definition raw : value :=
  VObj [("id", VNum 7);
        ("tags", VArr [VObj [("label", VStr "red")]; VObj [("label", VStr "blue")]])].

(** Data whose second tag is not valid. *)
Definition raw_invalid : value :=
  VObj [("id", VNum 7);
        ("tags", VArr [VObj [("label", VStr "red")]; VObj [("label", VStr "")];
                       VObj [("label", VStr "blue")]])].

Definition tag (label : string) : value :=
  VInst "Tag" [("label", VPromise (Settled (Fulfilled (VStr label))))].

Definition label_of (instance : value) : option string :=
  match instance with
  | VInst _ props =>
      match prop_lookup "label" props with
      | Some (VPromise (Settled (Fulfilled (VStr s)))) => Some s
      | _ => None
      end
  | _ => None
  end.

(** A validation that rejects when the label is empty ... *)
Definition validate_rejecting (instance : value) : validation :=
  match label_of instance with
  | Some EmptyString => ValidationRejected (ValidationError ["label should not be empty"])
  | _ => ValidationResolved []
  end.

(** ... and one that resolves with the violations it found. *)
Definition validate_reporting (instance : value) : validation :=
  match label_of instance with
  | Some EmptyString => ValidationResolved ["label should not be empty"]
  | _ => ValidationResolved []
  end.
End Shop.

(** A class with a nested object:
    [class Parent { @StaticData('Child', Child) child: Child }] and
    [class Child { @StaticData('Name') name: string }]. *)
Module Family.
Definition design_type (c key : string) : constructor :=
  if String.eqb c "Parent" then ClassCtor "Child" BObject else Builtin BString.

Definition Child_body : list annotation :=
  [ {| a_key := "name"; a_remote := "Name"; a_child := OptUndefined |} ].

Definition Parent_body : list annotation :=
  [ {| a_key := "child"; a_remote := "Child"; a_child := OptClass "Child" |} ].

Definition table : classes :=
  {[ "Child" := [("name", {| remoteName := "Name"; opts := OptUndefined; type := Scalar |})];
     "Parent" := [("child", {| remoteName := "Child"; opts := OptClass "Child";
                               type := Object |})] ]}.

Definition raw : value := VObj [("child", VObj [("name", VStr "")])].

Definition child : value :=
  VInst "Child" [("name", VPromise (Settled (Fulfilled (VStr ""))))].

(** A validation that rejects every [Child]. *)
Definition validate_rejecting (instance : value) : validation :=
  match instance with
  | VInst c _ =>
      if String.eqb c "Child"
      then ValidationRejected (ValidationError ["name should not be empty"])
      else ValidationResolved []
  | _ => ValidationResolved []
  end.
End Family.

(** A class with one scalar field: [class C { @StaticData('Field') field: number }]. *)
Module Plain.
Definition design_type (c key : string) : constructor := Builtin BNumber.

Definition C_body : list annotation :=
  [ {| a_key := "field"; a_remote := "Field"; a_child := OptUndefined |} ].

Definition table : classes :=
  {[ "C" := [("field", {| remoteName := "Field"; opts := OptUndefined; type := Scalar |})] ]}.
End Plain.

(** A class that refers to itself: [class Node { @StaticData('Next', Node) next: Node }]. *)
Module Linked.
Definition design_type (c key : string) : constructor := ClassCtor "Node" BObject.

Definition Node_body : list annotation :=
  [ {| a_key := "next"; a_remote := "Next"; a_child := OptClass "Node" |} ].

Definition table : classes :=
  {[ "Node" := [("next", {| remoteName := "Next"; opts := OptClass "Node"; type := Object |})] ]}.
End Linked.

(** [Item] and [Tag] of [Shop] in one program with the self-referring
    [Node] of [Linked]. *)
Module Mixed.
Definition table : classes :=
  {[ "Tag" := [("label", {| remoteName := "Label"; opts := OptUndefined; type := Scalar |})];
     "Item" := [("id", {| remoteName := "ID"; opts := OptUndefined; type := Scalar |});
                ("tags", {| remoteName := "Tags"; opts := OptClass "Tag"; type := Array |})];
     "Node" := [("next", {| remoteName := "Next"; opts := OptClass "Node"; type := Object |})] ]}.
End Mixed.

(** A module over [Shop]: the data lives in one file, [None] while the
    file does not exist; [JSON.parse] knows two documents, [null] and the
    text of [Shop.raw] (which stands here under a name). *)
Module Demo.
Definition document : string := "shop-document".

#[global] Instance module : StaticDataModule (option string) := {
  StaticDataClass := "Item";
  load file :=
    match file with
    | Some content => (Ok content, file)
    | None => (Throw (ExternalError "ENOENT"), file)
    end;
  store content _ := (Ok (), Some content);
  JSON_parse json :=
    match json with
    | VStr s =>
        if String.eqb s "null" then Ok VNull
        else if String.eqb s document then Ok Shop.raw
        else Throw (ExternalError "SyntaxError")
    | _ => Throw (ExternalError "SyntaxError")
    end;
  JSON_stringify _ := document
}.

(** What [walk] makes of [Shop.raw]. *)
Definition loaded : value :=
  VInst "Item"
    [("id", VPromise (Settled (Fulfilled (VNum 7))));
     ("tags", VPromise (Suspended (Shop.tag "red")
                          (KArray [] [VObj [("label", VStr "blue")]] (OptClass "Tag"))))].

(** The module after a start with valid data. *)
Definition running : module_state (option string) :=
  {| staticData := loaded; backend := Some document; calls := [] |}.
End Demo.

(** ** Further notions used in the properties *)

(** [undefined] or [null]. *)
Definition nullish (v : value) : bool :=
  match v with VUndefined | VNull => true | _ => false end.

(** A validation with its violations forgotten. *)
Definition outcome_only (v : validation) : validation :=
  match v with
  | ValidationResolved _ => ValidationResolved []
  | ValidationRejected e => ValidationRejected e
  end.

(** [d] is the descriptor of field [f] of the schema class [c]. *)
Definition field_of (ct : classes) (c f : string) (d : IMetaData) : Prop :=
  ∃ reg, ct !! c = Some reg ∧ wf_props reg ∧ prop_lookup f reg = Some d.

(** The registry projected to a schema, no class looked into. *)
Definition flat_schema (reg : list (string * IMetaData)) : schema :=
  (λ field : string * IMetaData,
     (field.1, Entry (remoteName field.2) (type field.2) (MetaOpts (opts field.2)))) <$> reg.

(** A field whose nested class was not given:
    [class Holder { @StaticData('Part') part: Part }]. *)
Module Orphan.
Definition design_type (c key : string) : constructor := ClassCtor "Part" BObject.

Definition Holder_body : list annotation :=
  [ {| a_key := "part"; a_remote := "Part"; a_child := OptUndefined |} ].

Definition table : classes :=
  {[ "Holder" := [("part", {| remoteName := "Part"; opts := OptUndefined; type := Object |})] ]}.
End Orphan.

(** ** The local dump: the constructor, [dump] and [loadDump],
       lines 217-219 and 331-372 *)

(** The platform the dump runs on: the configuration of mage, zlib and
    the file system.  [F] is the state of the file system, [B] the type
    of buffers. *)
Class Platform (F B : Type) := {
  config_get : string → value;
  zlib_deflate : string → result B;
  zlib_inflate : B → result B;
  Buffer_toString : B → string;
  fs_readFile : value → F → result B;
  fs_writeFile : value → B → F → result unit * F
}.

Section dump.
Context {F B : Type} `{Platform F B}.

(** The constructor, lines 217-219. *)
Definition _dumpLocation : value :=
  let configured := config_get "static.location" in
  if truthy configured then configured else VStr "static.dat".

(** The promise of [dump], lines 332-346, for a given [data]. *)
Definition dump_to (data : string) (fs : F) : result unit * F :=
  match zlib_deflate data with
  | Throw compressError => (Throw compressError, fs)
  | Ok compressedData => fs_writeFile _dumpLocation compressedData fs
  end.

(** [loadDump], lines 356-372 *)
Definition loadDump (fs : F) : result string * F :=
  match fs_readFile _dumpLocation fs with
  | Throw fileError => (Throw fileError, fs)
  | Ok compressedData =>
      match zlib_inflate compressedData with
      | Throw decompressError => (Throw decompressError, fs)
      | Ok data => (Ok (Buffer_toString data), fs)
      end
  end.

(** The module as the class leaves it when a subclass overrides nothing:
    [load] is [loadDump] (line 237) and [store] is [dump] (line 252). *)
Definition default_module (cls : string) (json_parse : value → result value)
    (json_stringify : value → string) : StaticDataModule F := {|
  StaticDataClass := cls;
  load := loadDump;
  store := dump_to;
  JSON_parse := json_parse;
  JSON_stringify := json_stringify
|}.

(** What zlib and the file system promise: what was deflated inflates to
    the same text, and what was written to a path is what is read there. *)
Definition zlib_round_trip : Prop :=
  ∀ s b, zlib_deflate s = Ok b → ∃ b', zlib_inflate b = Ok b' ∧ Buffer_toString b' = s.

Definition fs_read_after_write : Prop :=
  ∀ path b fs fs', fs_writeFile path b fs = (Ok (), fs') → fs_readFile path fs' = Ok b.
End dump.

Section dump_method.
Context {F B : Type} `{Platform F B} `{StaticDataModule F}.

(** [dump], line 331, with its default argument [this.stringify()]. *)
Definition dump (data : option string) : M F unit :=
  data ← match data with
         | Some data => mret data
         | None => stringify None
         end;
  on_backend (dump_to data).
End dump_method.

(** A platform for the examples: buffers are texts, deflating puts a mark
    in front, and the file system is a list of paths with their
    contents. *)
Module Disk.
Definition inflate (b : string) : result string :=
  match b with
  | String _ rest => Ok rest
  | EmptyString => Throw (ExternalError "Z_BUF_ERROR")
  end.

Definition read (path : value) (fs : list (string * string)) : result string :=
  match path with
  | VStr p =>
      match prop_lookup p fs with
      | Some content => Ok content
      | None => Throw (ExternalError "ENOENT")
      end
  | _ => Throw (TypeError "path must be a string")
  end.

Definition write (path : value) (content : string) (fs : list (string * string))
  : result unit * list (string * string) :=
  match path with
  | VStr p => (Ok (), prop_assign p content fs)
  | _ => (Throw (TypeError "path must be a string"), fs)
  end.

#[global] Instance platform : Platform (list (string * string)) string := {
  config_get _ := VUndefined;
  zlib_deflate s := Ok (String.append "z" s);
  zlib_inflate := inflate;
  Buffer_toString b := b;
  fs_readFile := read;
  fs_writeFile := write
}.
End Disk.

(** A module whose store cannot be written. *)
Module ReadOnly.
Definition module : StaticDataModule (option string) := {|
  StaticDataClass := "Item";
  load := @load _ Demo.module;
  store _ file := (Throw (ExternalError "EACCES"), file);
  JSON_parse := @JSON_parse _ Demo.module;
  JSON_stringify := @JSON_stringify _ Demo.module
|}.
End ReadOnly.

(** The module of [Shop] over the local dump on [Disk]. *)
Module Dumped.
Definition module : StaticDataModule (list (string * string)) :=
  default_module "Item" (@JSON_parse _ Demo.module) (@JSON_stringify _ Demo.module).

Definition start (fs : list (string * string)) : module_state (list (string * string)) :=
  {| staticData := VUndefined; backend := fs; calls := [] |}.
End Dumped.

(** The module of [Demo] handed a document whose second tag is not valid:
    [JSON.parse] of it is [Shop.raw_invalid]. *)
Module Careless.
Definition document : string := "shop-document-with-empty-label".

Definition module : StaticDataModule (option string) := {|
  StaticDataClass := "Item";
  load := @load _ Demo.module;
  store := @store _ Demo.module;
  JSON_parse json :=
    match json with
    | VStr s =>
        if String.eqb s document then Ok Shop.raw_invalid
        else Throw (ExternalError "SyntaxError")
    | _ => Throw (ExternalError "SyntaxError")
    end;
  JSON_stringify _ := document
|}.
End Careless.

(** * Properties *)

(** ** Results *)

Lemma rbind_Ok {A B} (r : result A) (k : A → result B) b :
  rbind r k = Ok b ↔ ∃ a, r = Ok a ∧ k a = Ok b.
Proof.
  destruct r as [a|e]; simpl; split.
  - eauto.
  - by intros (a' & [= <-] & ?).
  - done.
  - by intros (a' & ? & ?).
Qed.

(** ** Objects as ordered maps *)

Section props_facts.
Context {A : Type}.
Implicit Types (o : list (string * A)) (k : string).

Lemma prop_lookup_assign_eq k v o : prop_lookup k (prop_assign k v o) = Some v.
Proof.
  induction o as [|[k' w] o IH]; simpl.
  - by rewrite String.eqb_refl.
  - destruct (String.eqb k k') eqn:E; simpl; rewrite E; [done | apply IH].
Qed.

Lemma prop_lookup_assign_ne k k' v o :
  k ≠ k' → prop_lookup k' (prop_assign k v o) = prop_lookup k' o.
Proof.
  intros Hne.
  assert (String.eqb k' k = false) as Hk by (apply String.eqb_neq; congruence).
  induction o as [|[k0 w] o IH]; simpl.
  - by rewrite Hk.
  - destruct (String.eqb k k0) eqn:E; simpl.
    + apply String.eqb_eq in E as <-. by rewrite Hk.
    + by rewrite IH.
Qed.

Lemma prop_assign_fresh k v o : k ∉ own_keys o → prop_assign k v o = o ++ [(k, v)].
Proof.
  unfold own_keys. induction o as [|[k' w] o IH]; simpl; [done|].
  rewrite not_elem_of_cons. intros [Hne Hnotin].
  rewrite (proj2 (String.eqb_neq _ _) Hne). by rewrite IH.
Qed.

Lemma own_keys_assign k v o :
  own_keys (prop_assign k v o)
  = if bool_decide (k ∈ own_keys o) then own_keys o else own_keys o ++ [k].
Proof.
  unfold own_keys. induction o as [|[k' w] o IH].
  - by rewrite bool_decide_eq_false_2 by apply not_elem_of_nil.
  - simpl. destruct (String.eqb k k') eqn:E.
    + apply String.eqb_eq in E as ->. by rewrite bool_decide_eq_true_2 by left.
    + apply String.eqb_neq in E. simpl. rewrite IH.
      destruct (decide (k ∈ map fst o)) as [Hin|Hin].
      * rewrite !bool_decide_eq_true_2; [done | by right | done].
      * rewrite !bool_decide_eq_false_2; [done | | done].
        by intros [?|?]%elem_of_cons.
Qed.

Lemma wf_props_assign k v o : wf_props o → wf_props (prop_assign k v o).
Proof.
  unfold wf_props. rewrite own_keys_assign. intros Hwf.
  case_bool_decide as Hin; [done|].
  apply NoDup_app. split_and!; [done | | apply NoDup_singleton].
  intros x Hx Hx'. apply list_elem_of_singleton in Hx' as ->. done.
Qed.
End props_facts.

(** ** Type Classifier *)

Lemma primitive_wrapper_instanceof o :
  primitive_wrapper o ↔
  instanceof o BString || instanceof o BNumber || instanceof o BBoolean = true.
Proof.
  unfold primitive_wrapper, instanceof.
  rewrite !orb_true_iff, !bool_decide_eq_true. tauto.
Qed.

(** C5.  The descriptor [computeMetadata] returns has the kind the default
    instance [new Info()] of the declared type dictates: Scalar exactly
    when that instance is a String, Number or Boolean wrapper, otherwise
    Array exactly when it is an array, otherwise Object; the remote name
    and the options are stored as given.  When the declared type cannot be
    instantiated the exception of [new Info()] leaves [computeMetadata]. *)
Theorem classifier_follows_default_instance
    (design_type : class_id → string → constructor)
    (target : class_id) (key remote : string) (o : opts_t) :
  match instantiate (design_type target key) with
  | Ok instance =>
      ∃ m, computeMetadata design_type target key remote o = Ok m
           ∧ remoteName m = remote ∧ opts m = o
           ∧ ∀ kind, type m = kind ↔ classified instance kind
  | Throw e => computeMetadata design_type target key remote o = Throw e
  end.
Proof.
  unfold computeMetadata.
  destruct (instantiate (design_type target key)) as [instance|e]; simpl; [|done].
  eexists. split; [done|]. simpl. split_and!; [done..|].
  intros kind.
  destruct (instanceof instance BString || instanceof instance BNumber
            || instanceof instance BBoolean) eqn:Hw.
  - apply primitive_wrapper_instanceof in Hw. split.
    + intros <-. by constructor.
    + by inversion 1.
  - assert (¬ primitive_wrapper instance) as Hnw.
    { rewrite primitive_wrapper_instanceof, Hw. done. }
    unfold Array_isArray. destruct (exotic_array instance) eqn:Ha.
    + split; [intros <-; by constructor|].
      inversion 1; unfold array_like in *; congruence.
    + split; [intros <-; constructor; unfold array_like; congruence|].
      inversion 1; unfold array_like in *; congruence.
Qed.

(** The kinds of the types TypeScript emits. *)
Example classification_of_design_types :
  let kind Info := type <$> (match computeMetadata (λ _ _, Info) "C" "f" "F" OptUndefined with
                             | Ok m => Some m
                             | Throw _ => None
                             end) in
  kind (Builtin BString) = Some Scalar
  ∧ kind (Builtin BNumber) = Some Scalar
  ∧ kind (Builtin BBoolean) = Some Scalar
  ∧ kind (Builtin BArray) = Some Array
  ∧ kind (Builtin BObject) = Some Object
  ∧ kind (Builtin BFunction) = Some Object
  ∧ kind (ClassCtor "Tag" BObject) = Some Object
  ∧ kind (ClassCtor "Tags" BArray) = Some Array
  ∧ kind SymbolCtor = None
  ∧ kind NoDesignType = None.
Proof. by vm_compute. Qed.

(** ** Field Descriptor Registry *)

Section registry_facts.
Variable design_type : class_id → string → constructor.

(** Whether a registration throws depends on the declared type only. *)
Lemma computeMetadata_Ok target key r o m :
  computeMetadata design_type target key r o = Ok m →
  ∀ r' o', ∃ m', computeMetadata design_type target key r' o' = Ok m'
                 ∧ remoteName m' = r' ∧ opts m' = o' ∧ type m' = type m.
Proof.
  unfold computeMetadata. intros (instance & -> & [= <-])%rbind_Ok r' o'.
  simpl. eauto.
Qed.

(** One registration writes one slot of the registry of one class. *)
Lemma descriptor_StaticData r o target key ct ct' :
  StaticData design_type r o target key ct = Ok ct' →
  ∃ m, computeMetadata design_type target key r o = Ok m
       ∧ ∀ c k, descriptor ct' c k
                = if decide (c = target ∧ k = key) then Some m else descriptor ct c k.
Proof.
  unfold StaticData. intros (m & Hm & [= <-])%rbind_Ok.
  exists m. split; [done|]. intros c k. unfold descriptor.
  destruct (decide (c = target)) as [->|Hc].
  - rewrite lookup_alter_eq. case_bool_decide as Hnone.
    + rewrite lookup_insert_eq, Hnone. simpl.
      destruct (String.eqb k key) eqn:E.
      * apply String.eqb_eq in E as ->. by rewrite decide_True.
      * apply String.eqb_neq in E. rewrite decide_False; [done | by intros [_ ?]].
    + destruct (ct !! target) as [reg|] eqn:Hreg; [|done]. simpl.
      case_decide as Hk.
      * destruct Hk as [_ ->]. apply prop_lookup_assign_eq.
      * apply prop_lookup_assign_ne. intros ->. by apply Hk.
  - rewrite lookup_alter_ne by done. rewrite decide_False by (by intros [? _]).
    case_bool_decide; [by rewrite lookup_insert_ne|done].
Qed.

(** The registries the decorator builds are objects: no name twice. *)
Lemma StaticData_wf r o target key ct ct' :
  wf_classes ct → StaticData design_type r o target key ct = Ok ct' → wf_classes ct'.
Proof.
  unfold StaticData. intros Hwf (m & Hm & [= <-])%rbind_Ok c reg Hreg. simpl.
  destruct (decide (c = target)) as [->|Hc].
  - rewrite lookup_alter_eq in Hreg. case_bool_decide as Hnone.
    + rewrite lookup_insert_eq in Hreg. injection Hreg as <-.
      apply (wf_props_assign key m []), NoDup_nil_2.
    + destruct (ct !! target) as [reg0|] eqn:Hreg0; [|done].
      injection Hreg as <-. apply wf_props_assign. exact (Hwf target reg0 Hreg0).
  - rewrite lookup_alter_ne in Hreg by done.
    case_bool_decide; [rewrite lookup_insert_ne in Hreg by done|]; exact (Hwf c reg Hreg).
Qed.

Lemma annotate_wf target body ct ct' :
  wf_classes ct → annotate design_type target body ct = Ok ct' → wf_classes ct'.
Proof.
  revert ct. induction body as [|a body IH]; intros ct Hwf; simpl.
  - by intros [= <-].
  - intros (ct1 & Ha & Hrest)%rbind_Ok. eapply IH; [|done]. by eapply StaticData_wf.
Qed.

(** A registration goes through on any table when it goes through on
    one, and tables with the same descriptors stay so. *)
Lemma StaticData_equiv r o target key ct1 ct2 ct1' :
  (∀ c k, descriptor ct2 c k = descriptor ct1 c k) →
  StaticData design_type r o target key ct1 = Ok ct1' →
  ∃ ct2', StaticData design_type r o target key ct2 = Ok ct2'
          ∧ ∀ c k, descriptor ct2' c k = descriptor ct1' c k.
Proof.
  intros Heq H1. destruct (descriptor_StaticData _ _ _ _ _ _ H1) as (m & Hm & Hd1).
  destruct (StaticData design_type r o target key ct2) as [ct2'|e] eqn:H2.
  - exists ct2'. split; [done|]. intros c k.
    destruct (descriptor_StaticData _ _ _ _ _ _ H2) as (m' & Hm' & Hd2).
    rewrite Hd1, Hd2, Heq. by replace m' with m by congruence.
  - unfold StaticData in H2. rewrite Hm in H2. done.
Qed.

Lemma annotate_equiv target body ct1 ct2 ct1' :
  (∀ c k, descriptor ct2 c k = descriptor ct1 c k) →
  annotate design_type target body ct1 = Ok ct1' →
  ∃ ct2', annotate design_type target body ct2 = Ok ct2'
          ∧ ∀ c k, descriptor ct2' c k = descriptor ct1' c k.
Proof.
  revert ct1 ct2. induction body as [|a body IH]; intros ct1 ct2 Heq; simpl.
  - intros [= <-]. eauto.
  - intros (ct & Ha & Hrest)%rbind_Ok.
    destruct (StaticData_equiv _ _ _ _ _ _ _ Heq Ha) as (ct' & -> & Heq').
    simpl. eauto.
Qed.

(** Two registrations of different names commute. *)
Lemma annotate_swap target a b body ct ct1 :
  a_key a ≠ a_key b →
  annotate design_type target (a :: b :: body) ct = Ok ct1 →
  ∃ ct2, annotate design_type target (b :: a :: body) ct = Ok ct2
         ∧ ∀ c k, descriptor ct2 c k = descriptor ct1 c k.
Proof.
  intros Hne. simpl.
  intros (cta & Ha & (ctab & Hb & Hrest)%rbind_Ok)%rbind_Ok.
  destruct (descriptor_StaticData _ _ _ _ _ _ Ha) as (ma & Hma & Hda).
  destruct (descriptor_StaticData _ _ _ _ _ _ Hb) as (mb & Hmb & Hdb).
  destruct (StaticData design_type (a_remote b) (a_child b) target (a_key b) ct)
    as [ctb|e] eqn:Hb'; [|by unfold StaticData in Hb'; rewrite Hmb in Hb'].
  simpl. destruct (StaticData design_type (a_remote a) (a_child a) target (a_key a) ctb)
    as [ctba|e] eqn:Ha'; [|by unfold StaticData in Ha'; rewrite Hma in Ha'].
  simpl.
  destruct (descriptor_StaticData _ _ _ _ _ _ Hb') as (mb' & Hmb' & Hdb').
  destruct (descriptor_StaticData _ _ _ _ _ _ Ha') as (ma' & Hma' & Hda').
  replace ma' with ma in * by congruence. replace mb' with mb in * by congruence.
  apply annotate_equiv with (ct1 := ctab); [|done].
  intros c k. rewrite Hda', Hdb', Hdb, Hda.
  repeat case_decide; try done. destruct_and!. congruence.
Qed.

Lemma annotate_permutation target body body' :
  body ≡ₚ body' →
  NoDup (a_key <$> body) →
  ∀ ct ct1, annotate design_type target body ct = Ok ct1 →
  ∃ ct2, annotate design_type target body' ct = Ok ct2
         ∧ ∀ c k, descriptor ct2 c k = descriptor ct1 c k.
Proof.
  induction 1 as [|a body body' Hperm IH|a b body|body1 body2 body3 H12 IH12 H23 IH23];
    intros Hnodup ct ct1.
  - intros [= <-]. eauto.
  - simpl. intros (cta & -> & Hrest)%rbind_Ok. simpl.
    apply IH; [|done]. by inversion Hnodup.
  - intros Hrun. apply annotate_swap; [|done].
    rewrite !fmap_cons in Hnodup. apply NoDup_cons in Hnodup as [Hnotin _].
    intros Heq. apply Hnotin. rewrite Heq. left.
  - intros Hrun. destruct (IH12 Hnodup _ _ Hrun) as (ct2 & Hrun2 & Heq2).
    assert (NoDup (a_key <$> body2)) as Hnodup2 by (by rewrite <- H12).
    destruct (IH23 Hnodup2 _ _ Hrun2) as (ct3 & Hrun3 & Heq3).
    exists ct3. split; [done|]. intros c k. by rewrite Heq3, Heq2.
Qed.

(** C7.  The annotations of a class with pairwise different local names
    can run in any order: in every other order all of them go through
    as well and every [(class, localName)] pair ends with the same
    descriptor.  Registering a pair again is not an error when the
    first registration was none: the later descriptor replaces the
    earlier one and no other slot changes. *)
Theorem registry_order_independent_last_write_wins
    (target : class_id) (body body' : list annotation) (ct ct1 : classes) :
  NoDup (a_key <$> body) →
  body ≡ₚ body' →
  annotate design_type target body ct = Ok ct1 →
  (∃ ct2, annotate design_type target body' ct = Ok ct2
          ∧ ∀ c k, descriptor ct2 c k = descriptor ct1 c k)
  ∧ (∀ key r1 o1 r2 o2 cta ctb,
       StaticData design_type r1 o1 target key cta = Ok ctb →
       ∃ m ctc,
         StaticData design_type r2 o2 target key ctb = Ok ctc
         ∧ computeMetadata design_type target key r2 o2 = Ok m
         ∧ descriptor ctc target key = Some m
         ∧ remoteName m = r2 ∧ opts m = o2
         ∧ ∀ c k, (c, k) ≠ (target, key) → descriptor ctc c k = descriptor cta c k).
Proof.
  intros Hnodup Hperm Hrun. split.
  - by eapply annotate_permutation.
  - intros key r1 o1 r2 o2 cta ctb H1.
    destruct (descriptor_StaticData _ _ _ _ _ _ H1) as (m1 & Hm1 & Hd1).
    destruct (computeMetadata_Ok _ _ _ _ _ Hm1 r2 o2) as (m2 & Hm2 & Hr & Ho & _).
    destruct (StaticData design_type r2 o2 target key ctb) as [ctc|e] eqn:H2;
      [|by unfold StaticData in H2; rewrite Hm2 in H2].
    destruct (descriptor_StaticData _ _ _ _ _ _ H2) as (m2' & Hm2' & Hd2).
    replace m2' with m2 in * by congruence.
    exists m2, ctc. split_and!; try done.
    + rewrite Hd2. by rewrite decide_True.
    + intros c k Hne. rewrite Hd2, Hd1.
      rewrite !decide_False; [done | |]; intros [-> ->]; done.
Qed.
End registry_facts.

Lemma registry_order_independent_last_write_wins_witness :
  ∃ ct2, annotate Shop.design_type "Item" (reverse Shop.Item_body) ∅ = Ok ct2
         ∧ ∀ c k, descriptor ct2 c k
                  = descriptor {[ "Item" := [("id", {| remoteName := "ID"; opts := OptUndefined;
                                                       type := Scalar |});
                                             ("tags", {| remoteName := "Tags";
                                                         opts := OptClass "Tag";
                                                         type := Array |})] ]} c k.
Proof.
  refine (proj1 (registry_order_independent_last_write_wins Shop.design_type "Item"
                   Shop.Item_body (reverse Shop.Item_body) ∅ _ _ _ _)).
  - compute_done.
  - apply Permutation_swap.
  - reflexivity.
Defined.

(** ** Loops *)

Lemma prop_lookup_wf {A} (o : list (string * A)) k v :
  wf_props o → (k, v) ∈ o → prop_lookup k o = Some v.
Proof.
  unfold wf_props, own_keys. induction o as [|[k' w] o IH]; simpl.
  - by intros _ ?%elem_of_nil.
  - intros [Hnotin Hnodup]%NoDup_cons [[= -> ->]|Hin]%elem_of_cons.
    + by rewrite String.eqb_refl.
    + destruct (String.eqb k k') eqn:E; [|by apply IH].
      apply String.eqb_eq in E as ->. exfalso. apply Hnotin.
      apply list_elem_of_In, in_map_iff. exists (k', v). split; [done|].
      by apply list_elem_of_In.
Qed.

(** A loop that assigns one computed property per key, each key once,
    appends the properties in key order. *)
Lemma for_of_collect {B} (g : string → result B)
    (body : string → list (string * B) → result (list (string * B))) keys acc :
  (∀ key ret, body key ret = let! e := g key in Ok (prop_assign key e ret)) →
  NoDup keys →
  (∀ k, k ∈ keys → k ∉ own_keys acc) →
  (∀ k, k ∈ keys → is_ok (g k) = true) →
  ∃ es, for_of keys body acc = Ok (acc ++ es)
        ∧ Forall2 (λ k ke, ke.1 = k ∧ g k = Ok ke.2) keys es.
Proof.
  intros Hbody. revert acc.
  induction keys as [|k keys IH]; intros acc Hnodup Hfresh Hok; simpl.
  - exists []. by rewrite app_nil_r.
  - apply NoDup_cons in Hnodup as [Hk Hnodup].
    rewrite Hbody. destruct (g k) as [e|err] eqn:Hg.
    2:{ specialize (Hok k). rewrite Hg in Hok. exfalso. simpl in Hok.
        discriminate Hok. left. }
    simpl. rewrite prop_assign_fresh by (apply Hfresh; left).
    destruct (IH (acc ++ [(k, e)])) as (es & -> & Hes); [done | | |].
    + intros k' Hk'. unfold own_keys. rewrite map_app. simpl.
      rewrite elem_of_app, list_elem_of_singleton.
      intros [Hin| ->]; [|done]. by apply (Hfresh k'); [right|].
    + intros k' Hk'. apply Hok. by right.
    + exists ((k, e) :: es). split; [by rewrite <- app_assoc|].
      constructor; [done|done].
Qed.

Lemma for_of_ext {A S} (xs : list A) (body body' : A → S → result S) s :
  (∀ x s, body x s = body' x s) → for_of xs body s = for_of xs body' s.
Proof.
  intros Hext. revert s. induction xs as [|x xs IH]; intros s; simpl; [done|].
  rewrite Hext. destruct (body' x s); simpl; [apply IH | done].
Qed.

(** ** Schema Extractor *)

Section extractor_facts.
Variable ct : classes.

Lemma extractMetaData_unfold depth c reg :
  ct !! c = Some reg →
  extractMetaData ct (S depth) (OptClass c)
  = for_of (own_keys reg)
      (λ key ret, let! e := extract_entry ct depth reg key in Ok (prop_assign key e ret)) [].
Proof.
  intros Hreg. simpl. rewrite Hreg. simpl. apply for_of_ext.
  intros key ret. unfold extract_entry.
  destruct (prop_lookup key reg) as [[name o kind]|]; simpl; [|done].
  destruct (is_schema_class ct o); simpl; [|done].
  by destruct (extractMetaData ct depth o).
Qed.
End extractor_facts.

Lemma Forall2_own_keys {A B} (P : string → B → Prop) (o : list (string * A)) es :
  Forall2 P (own_keys o) es → Forall2 (λ field e, P field.1 e) o es.
Proof.
  unfold own_keys. revert es. induction o as [|[k v] o IH]; simpl; intros es H.
  - inversion H. constructor.
  - inversion H as [|? e ? es' HP Hrest]; subst. constructor; [done | by apply IH].
Qed.

Lemma acyclic_nested ct rank c reg k d c' :
  acyclic ct rank → ct !! c = Some reg → (k, d) ∈ reg →
  opts d = OptClass c' → is_schema_class ct (opts d) = true →
  rank c' < rank c.
Proof.
  intros Hacyclic Hreg Hin Hopts Hschema.
  specialize (Hacyclic c reg Hreg). simpl in Hacyclic.
  rewrite Forall_forall in Hacyclic. specialize (Hacyclic (k, d) Hin).
  unfold nested_below in Hacyclic. simpl in Hacyclic.
  rewrite Hschema, Hopts in Hacyclic. by apply bool_decide_eq_true in Hacyclic.
Qed.

(** Without a cycle the stack is deep enough once it exceeds the rank. *)
Lemma extractMetaData_acyclic ct rank :
  wf_classes ct → acyclic ct rank →
  ∀ stack c reg, ct !! c = Some reg → rank c < stack →
  ∃ out, extractMetaData ct stack (OptClass c) = Ok out
         ∧ Forall2 (emitted ct (extractMetaData ct (stack - 1))) reg out.
Proof.
  intros Hwf Hacyclic. induction stack as [|depth IH]; intros c reg Hreg Hrank; [lia|].
  rewrite (extractMetaData_unfold _ _ _ _ Hreg).
  assert (wf_props reg) as Hwfreg by exact (Hwf c reg Hreg).
  destruct (for_of_collect (extract_entry ct depth reg)
              (λ key ret, let! e := extract_entry ct depth reg key in
                          Ok (prop_assign key e ret))
              (own_keys reg) []) as (out & Hout & Hall).
  - done.
  - exact Hwfreg.
  - intros k _. apply not_elem_of_nil.
  - intros k Hk. apply list_elem_of_In, in_map_iff in Hk as ([k' d] & <- & Hin).
    apply list_elem_of_In in Hin. simpl. unfold extract_entry.
    rewrite (prop_lookup_wf _ _ _ Hwfreg Hin).
    destruct (is_schema_class ct (opts d)) eqn:Hschema; [|done].
    destruct (opts d) as [|c'|] eqn:Hopts; try done.
    assert (rank c' < rank c) as Hlt.
    { eapply acyclic_nested; try done. by rewrite Hopts. }
    simpl in Hschema. apply bool_decide_eq_true in Hschema as [reg' Hreg'].
    destruct (IH c' reg' Hreg') as (nested & -> & _); [lia|done].
  - exists out. split; [done|].
    replace (S depth - 1) with depth by lia.
    apply Forall2_own_keys in Hall.
    apply Forall2_same_length_lookup. split; [by eapply Forall2_length|].
    intros i [k d] [k' e] Hi Ho.
    destruct (Forall2_lookup_lr _ _ _ _ _ _ Hall Hi Ho) as [Hk He].
    simpl in *. subst k'. split; [done|]. simpl.
    unfold extract_entry in He.
    rewrite (prop_lookup_wf reg k d) in He; [|done|by eapply list_elem_of_lookup_2].
    destruct (is_schema_class ct (opts d)).
    + apply rbind_Ok in He as (M & (nested & Hnested & [= <-])%rbind_Ok & [= <-]).
      eauto.
    + simpl in He. injection He as <-. eauto.
Qed.

Lemma linked_extract_overflows stack :
  extractMetaData Linked.table stack (OptClass "Node") = Throw RangeError.
Proof.
  induction stack as [|depth IH]; [done|].
  rewrite (extractMetaData_unfold Linked.table depth "Node"
             [("next", {| remoteName := "Next"; opts := OptClass "Node"; type := Object |})])
    by reflexivity.
  simpl. unfold extract_entry. simpl.
  replace (bool_decide (is_Some (Linked.table !! "Node"))) with true by reflexivity.
  by rewrite IH.
Qed.

Lemma prop_lookup_elem_of {A} (o : list (string * A)) k v :
  prop_lookup k o = Some v → (k, v) ∈ o.
Proof.
  induction o as [|[k' w] o IH]; simpl; [done|].
  destruct (String.eqb k k') eqn:E.
  - apply String.eqb_eq in E as ->. intros [= ->]. left.
  - intros H. right. by apply IH.
Qed.

Lemma prop_lookup_own_key {A} (o : list (string * A)) k :
  k ∈ own_keys o → ∃ v, prop_lookup k o = Some v.
Proof.
  unfold own_keys. induction o as [|[k' w] o IH]; simpl.
  - by intros ?%elem_of_nil.
  - intros [->|Hin]%elem_of_cons.
    + rewrite String.eqb_refl. eauto.
    + destruct (String.eqb k k'); eauto.
Qed.

Lemma for_of_Ok_inv {B} (g : string → result B) keys acc r :
  for_of keys (λ key ret, let! e := g key in Ok (prop_assign key e ret)) acc = Ok r →
  ∀ k, k ∈ keys → ∃ e, g k = Ok e.
Proof.
  revert acc. induction keys as [|k0 keys IH]; intros acc; simpl.
  - by intros _ k ?%elem_of_nil.
  - intros (acc' & (e & He & [= <-])%rbind_Ok & Hrest)%rbind_Ok k [->|Hin]%elem_of_cons;
      [eauto | by eapply IH].
Qed.

(** One level of the extraction, the entries of the fields given. *)
Lemma extractMetaData_step ct depth c reg :
  ct !! c = Some reg → wf_props reg →
  (∀ k, k ∈ own_keys reg → is_ok (extract_entry ct depth reg k) = true) →
  ∃ out, extractMetaData ct (S depth) (OptClass c) = Ok out
         ∧ Forall2 (emitted ct (extractMetaData ct depth)) reg out.
Proof.
  intros Hreg Hwf Hentries. rewrite (extractMetaData_unfold _ _ _ _ Hreg).
  destruct (for_of_collect (extract_entry ct depth reg)
              (λ key ret, let! e := extract_entry ct depth reg key in
                          Ok (prop_assign key e ret))
              (own_keys reg) []) as (out & Hout & Hall); try done.
  { intros k _. apply not_elem_of_nil. }
  exists out. split; [done|].
  apply Forall2_own_keys in Hall.
  apply Forall2_same_length_lookup. split; [by eapply Forall2_length|].
  intros i [k d] [k' e] Hi Ho.
  destruct (Forall2_lookup_lr _ _ _ _ _ _ Hall Hi Ho) as [Hk He].
  simpl in *. subst k'. split; [done|]. simpl.
  unfold extract_entry in He.
  rewrite (prop_lookup_wf reg k d) in He; [|done|by eapply list_elem_of_lookup_2].
  destruct (is_schema_class ct (opts d)).
  - apply rbind_Ok in He as (M & (nested & Hnested & [= <-])%rbind_Ok & [= <-]).
    eauto.
  - simpl in He. injection He as <-. eauto.
Qed.

(** Finitely many fields need finitely many frames. *)
Lemma extract_entries_bound ct reg (keys : list string) :
  (∀ k, k ∈ keys →
        ∃ n, ∀ depth, n ≤ depth → is_ok (extract_entry ct depth reg k) = true) →
  ∃ n, ∀ k, k ∈ keys →
            ∀ depth, n ≤ depth → is_ok (extract_entry ct depth reg k) = true.
Proof.
  induction keys as [|k keys IH]; intros Hkeys.
  - exists 0. by intros k ?%elem_of_nil.
  - destruct (Hkeys k) as [n Hn]; [left|].
    destruct IH as [n' Hn']; [intros k' Hk'; apply Hkeys; by right|].
    exists (n `max` n'). intros k' [->|Hin]%elem_of_cons depth Hdepth.
    + apply Hn. lia.
    + apply Hn'; [done | lia].
Qed.

(** With a finite nesting below it, a class is extracted on every stack
    that is deep enough. *)
Lemma extractMetaData_finitely_nested ct c :
  wf_classes ct → finitely_nested ct c →
  ∃ depth, ∀ stack, depth < stack →
    ∃ out, extractMetaData ct stack (OptClass c) = Ok out
           ∧ ∀ reg, ct !! c = Some reg →
                    Forall2 (emitted ct (extractMetaData ct (stack - 1))) reg out.
Proof.
  intros Hwf. induction 1 as [c reg Hreg _ IH].
  destruct (extract_entries_bound ct reg (own_keys reg)) as [n Hn].
  { intros k [d Hd]%prop_lookup_own_key.
    destruct (is_schema_class ct (opts d)) eqn:Hschema.
    - destruct (opts d) as [|c'|v] eqn:Hopts; try done.
      simpl in Hschema. apply bool_decide_eq_true in Hschema.
      destruct (IH k d c' Hd Hopts Hschema) as [depth' Hdepth'].
      exists (S depth'). intros depth Hle. unfold extract_entry.
      rewrite Hd, Hopts. simpl. rewrite bool_decide_eq_true_2 by done.
      destruct (Hdepth' depth) as (nested & -> & _); [lia|done].
    - exists 0. intros depth _. unfold extract_entry. by rewrite Hd, Hschema. }
  exists n. intros stack Hstack. destruct stack as [|depth]; [lia|].
  destruct (extractMetaData_step ct depth c reg Hreg (Hwf c reg Hreg)) as (out & Hout & Hall).
  { intros k Hk. apply Hn; [done | lia]. }
  exists out. split; [done|]. intros reg' Hreg'.
  replace reg' with reg by congruence. by replace (S depth - 1) with depth by lia.
Qed.

(** Only such classes are extracted at all. *)
Lemma extractMetaData_Ok_finitely_nested ct stack c out :
  extractMetaData ct stack (OptClass c) = Ok out → finitely_nested ct c.
Proof.
  revert c out. induction stack as [|depth IH]; intros c out; [done|].
  destruct (ct !! c) as [reg|] eqn:Hreg; [|by simpl; rewrite Hreg].
  rewrite (extractMetaData_unfold _ _ _ _ Hreg). intros Hrun.
  apply (finitely_nested_class ct c reg Hreg). intros k d c' Hd Hopts Hsome.
  destruct (for_of_Ok_inv _ _ _ _ Hrun k) as [e He].
  { apply list_elem_of_In, in_map_iff. exists (k, d). split; [done|].
    by apply list_elem_of_In, prop_lookup_elem_of. }
  unfold extract_entry in He. rewrite Hd, Hopts in He. simpl in He.
  rewrite bool_decide_eq_true_2 in He by done.
  apply rbind_Ok in He as (M & (nested & Hnested & _)%rbind_Ok & _).
  by eapply IH.
Qed.

(** C8, as the code has it.  Take a schema class below which the nesting
    is finite: no class nested in it, directly or through others, is
    nested in itself (other classes of the program may be).  Then
    [extractMetaData] returns on every stack that is deep enough, and
    what it returns has, for each registered field and in registry order,
    the local name with the remote name, the kind, and as [meta] the
    schema extracted from the nested class when that is a schema class
    and the options untouched otherwise.  On no other class does
    [extractMetaData] return.  For [Item] and [Tag] the result is the
    description the specification gives. *)
Theorem extractSchema_emits_registry_when_finitely_nested
    (ct : classes) (c : string) (reg : list (string * IMetaData)) :
  wf_classes ct →
  ct !! c = Some reg →
  finitely_nested ct c →
  (∃ depth, ∀ stack, depth < stack →
     ∃ out, extractMetaData ct stack (OptClass c) = Ok out
            ∧ Forall2 (emitted ct (extractMetaData ct (stack - 1))) reg out)
  ∧ (∀ c' stack out, extractMetaData ct stack (OptClass c') = Ok out → finitely_nested ct c')
  ∧ extractMetaData Shop.table 2 (OptClass "Item")
    = Ok [("id", Entry "ID" Scalar (MetaOpts OptUndefined));
          ("tags", Entry "Tags" Array
             (MetaNested [("label", Entry "Label" Scalar (MetaOpts OptUndefined))]))].
Proof.
  intros Hwf Hreg Hfinite. split_and!; [| |by vm_compute].
  - destruct (extractMetaData_finitely_nested ct c Hwf Hfinite) as [depth Hdepth].
    exists depth. intros stack Hstack.
    destruct (Hdepth stack Hstack) as (out & Hout & Hall). eauto.
  - intros c' stack out. apply extractMetaData_Ok_finitely_nested.
Qed.

(** [Item] is extracted also in a program where another class, [Node],
    refers to itself. *)
Lemma extractSchema_emits_registry_when_finitely_nested_witness :
  ∃ depth, ∀ stack, depth < stack →
    ∃ out, extractMetaData Mixed.table stack (OptClass "Item") = Ok out
           ∧ Forall2 (emitted Mixed.table (extractMetaData Mixed.table (stack - 1)))
               [("id", {| remoteName := "ID"; opts := OptUndefined; type := Scalar |});
                ("tags", {| remoteName := "Tags"; opts := OptClass "Tag"; type := Array |})]
               out.
Proof.
  refine (proj1 (extractSchema_emits_registry_when_finitely_nested
                   Mixed.table "Item" _ _ _ _)).
  - compute_done.
  - reflexivity.
  - eapply finitely_nested_class; [reflexivity|].
    intros k d c' Hd Hopts _. simpl in Hd.
    destruct (String.eqb k "id"); [by injection Hd as <-|].
    destruct (String.eqb k "tags"); [|done].
    injection Hd as <-. injection Hopts as <-.
    eapply finitely_nested_class; [reflexivity|].
    intros k' d' c'' Hd' Hopts' _. simpl in Hd'.
    destruct (String.eqb k' "label"); [by injection Hd' as <-|done].
Defined.

Example mixed_item_schema :
  extractMetaData Mixed.table 2 (OptClass "Item")
  = Ok [("id", Entry "ID" Scalar (MetaOpts OptUndefined));
        ("tags", Entry "Tags" Array
           (MetaNested [("label", Entry "Label" Scalar (MetaOpts OptUndefined))]))].
Proof. by vm_compute. Qed.

(** C8, as the specification has it, fails on a class that refers to
    itself: the decorators of [Linked.Node_body] give [Node] a populated
    registry, and [extractMetaData] on [Node] returns on no stack. *)
Lemma extractSchema_cyclic_never_emits :
  annotate Linked.design_type "Node" Linked.Node_body ∅ = Ok Linked.table
  ∧ is_Some (Linked.table !! "Node")
  ∧ ¬ ∃ stack out, extractMetaData Linked.table stack (OptClass "Node") = Ok out.
Proof.
  split_and!.
  - by vm_compute.
  - by eexists.
  - intros (stack & out & H). by rewrite linked_extract_overflows in H.
Qed.

(** ** Schema Walker *)

Section walker_facts.
Variable ct : classes.

Lemma get_prop_readable data k v :
  get_prop data k = Ok v → ∀ k', is_ok (get_prop data k') = true.
Proof.
  intros H k'. destruct data; simpl in *; try done;
    by repeat match goal with |- context [if ?b then _ else _] => destruct b end.
Qed.

(** The loop of [walk] only touches the own properties of [instance]. *)
Lemma for_of_instance depth data meta c keys props :
  for_of keys (λ key instance,
      let keyMeta := meta ≫= prop_lookup key in
      let! val := get_prop data key in
      Ok (set_prop instance key (VPromise (parseAttribute ct depth val keyMeta))))
    (VInst c props)
  = let! props' :=
      for_of keys (λ key ret,
        let! e := (let! val := get_prop data key in
                   Ok (VPromise (parseAttribute ct depth val (meta ≫= prop_lookup key)))) in
        Ok (prop_assign key e ret)) props in
    Ok (VInst c props').
Proof.
  revert props. induction keys as [|key keys IH]; intros props; simpl; [done|].
  destruct (get_prop data key) as [val|e]; simpl; [|done]. apply IH.
Qed.

Lemma walk_unfold depth data c reg :
  ct !! c = Some reg →
  walk ct (S depth) data (OptClass c)
  = let! props :=
      for_of (own_keys reg) (λ key ret,
        let! e := walk_field ct depth data reg key in Ok (prop_assign key e ret)) [] in
    Ok (VInst c props).
Proof.
  intros Hreg. simpl. rewrite Hreg. simpl.
  exact (for_of_instance depth data (Some reg) c (own_keys reg) []).
Qed.

(** [walk] returns whenever the data can be read, and the instance has
    one property per registered field, in registry order. *)
Lemma walk_Ok depth data c reg :
  ct !! c = Some reg → wf_props reg →
  (∀ k, k ∈ own_keys reg → is_ok (get_prop data k) = true) →
  ∃ props, walk ct (S depth) data (OptClass c) = Ok (VInst c props)
           ∧ Forall2 (λ field p, p.1 = field.1
                                 ∧ walk_field ct depth data reg field.1 = Ok p.2)
               reg props.
Proof.
  intros Hreg Hwf Hread. rewrite (walk_unfold _ _ _ _ Hreg).
  destruct (for_of_collect (walk_field ct depth data reg)
              (λ key ret, let! e := walk_field ct depth data reg key in
                          Ok (prop_assign key e ret))
              (own_keys reg) []) as (props & -> & Hall); try done.
  - intros k _. apply not_elem_of_nil.
  - intros k Hk. unfold walk_field. specialize (Hread k Hk).
    by destruct (get_prop data k).
  - exists props. split; [done|]. by apply Forall2_own_keys in Hall.
Qed.

Lemma Forall2_own_keys_eq {A B} (P : string → B → Prop)
    (o : list (string * A)) (o' : list (string * B)) :
  Forall2 (λ field p, p.1 = field.1 ∧ P field.1 p.2) o o' → own_keys o' = own_keys o.
Proof.
  unfold own_keys. induction 1 as [|[k v] [k' w] o o' [Hk _] _ IH]; simpl in *;
    [done | by f_equal].
Qed.

(** What [walk] leaves at a registered field. *)
Lemma walk_at_field depth data c reg f d val :
  ct !! c = Some reg → wf_props reg → (f, d) ∈ reg → get_prop data f = Ok val →
  ∃ props, walk ct (S depth) data (OptClass c) = Ok (VInst c props)
           ∧ prop_lookup f props = Some (VPromise (parseAttribute ct depth val (Some d))).
Proof.
  intros Hreg Hwf Hin Hval.
  destruct (walk_Ok depth data c reg Hreg Hwf) as (props & Hwalk & Hall).
  { intros k _. by eapply get_prop_readable. }
  exists props. split; [done|].
  assert (wf_props props) as Hwf'.
  { unfold wf_props.
    by rewrite (Forall2_own_keys_eq (λ k v, walk_field ct depth data reg k = Ok v)
                  reg props Hall). }
  apply list_elem_of_lookup in Hin as [i Hi].
  destruct (Forall2_lookup_l _ _ _ _ _ Hall Hi) as ([k v] & Hp & Hk & Hv).
  simpl in *. subst k. apply prop_lookup_wf; [done|].
  unfold walk_field in Hv. rewrite Hval in Hv. simpl in Hv.
  rewrite (prop_lookup_wf reg f d) in Hv by (done || by eapply list_elem_of_lookup_2).
  injection Hv as <-. by eapply list_elem_of_lookup_2.
Qed.

(** *** Continuations *)

Variable validate : value → validation.

Lemma resume_Settled depth n o :
  Nat.iter n (resume ct validate depth) (Settled o) = Settled o.
Proof. induction n as [|n IH]; simpl; [done | by rewrite IH]. Qed.

Lemma iter_resume_r depth n t :
  Nat.iter (S n) (resume ct validate depth) t
  = Nat.iter n (resume ct validate depth) (resume ct validate depth t).
Proof. induction n as [|n IH]; simpl in *; [done | by rewrite IH]. Qed.

Lemma pending_steps_array_loop walk_ nested acc rest :
  pending_steps (array_loop walk_ nested acc rest) ≤ length rest.
Proof.
  destruct rest as [|x rest]; simpl; [done|].
  destruct (walk_ x nested); simpl; lia.
Qed.

(** Each continuation brings a body one step nearer to its end. *)
Lemma pending_steps_resume depth t :
  pending_steps (resume ct validate depth t) ≤ pending_steps t - 1.
Proof.
  destruct t as [o|awaited k]; simpl; [done|].
  destruct (validate awaited); simpl; [|lia].
  destruct k as [|acc rest nested]; simpl; [lia|].
  pose proof (pending_steps_array_loop (walk ct depth) nested (acc ++ [awaited]) rest). lia.
Qed.

Lemma iter_resume_settles depth n t :
  pending_steps t ≤ n → ∃ o, Nat.iter n (resume ct validate depth) t = Settled o.
Proof.
  revert t. induction n as [|n IH]; intros t Hn.
  - destruct t as [o|awaited [|]]; simpl in *; try lia. eauto.
  - rewrite iter_resume_r. apply IH.
    pose proof (pending_steps_resume depth t). lia.
Qed.

(** Every promise of [parseAttribute] settles. *)
Lemma settle_settles depth t : ∃ o, settle ct validate depth t = Settled o.
Proof. by apply iter_resume_settles. Qed.

(** Continuations beyond the last one change nothing. *)
Lemma settle_iter depth n t :
  pending_steps t ≤ n → Nat.iter n (resume ct validate depth) t = settle ct validate depth t.
Proof.
  intros Hn. unfold settle.
  destruct (iter_resume_settles depth (pending_steps t) t) as [o Ho]; [done|].
  replace n with ((n - pending_steps t) + pending_steps t) by lia.
  rewrite Nat.iter_add, Ho. apply resume_Settled.
Qed.

Lemma settle_resume depth t :
  settle ct validate depth (resume ct validate depth t) = settle ct validate depth t.
Proof.
  destruct t as [o|awaited k]; [done|].
  symmetry. unfold settle at 1.
  replace (pending_steps (Suspended awaited k))
    with (S (pending_steps (Suspended awaited k) - 1))
    by (destruct k; simpl; lia).
  rewrite iter_resume_r. apply settle_iter, pending_steps_resume.
Qed.

(** The [for ... of] of [parseAttribute] run to its end: when every
    remaining element walks and every validation resolves, the walked
    elements are pushed in iteration order. *)
Lemma settle_array_loop depth nested acc xs ys :
  Forall2 (λ x y, walk ct depth x nested = Ok y) xs ys →
  Forall (λ y, ∃ violations, validate y = ValidationResolved violations) ys →
  settle ct validate depth (array_loop (walk ct depth) nested acc xs)
  = Settled (Fulfilled (VArr (acc ++ ys))).
Proof.
  intros Hwalk. revert acc.
  induction Hwalk as [|x y xs ys Hx Hxs IH]; intros acc Hvalid.
  - by rewrite app_nil_r.
  - apply Forall_cons in Hvalid as [[violations Hy] Hvalid].
    simpl. rewrite Hx. rewrite <- settle_resume. simpl. rewrite Hy.
    rewrite IH by done. by rewrite <- app_assoc.
Qed.
(** The validations a body calls: enough continuations are enough. *)
Lemma validated_within_stable depth n t :
  pending_steps t ≤ n →
  validated_within ct validate n depth t = validated ct validate depth t.
Proof.
  revert t. induction n as [n IH] using lt_wf_ind. intros t Hn.
  destruct t as [o|awaited k]; [by destruct n|].
  unfold validated.
  pose proof (pending_steps_resume depth (Suspended awaited k)) as Hstep.
  assert (∃ p, pending_steps (Suspended awaited k) = S p) as [p Hp]
    by (destruct k; simpl; eauto).
  rewrite Hp in *. destruct n as [|n]; [lia|]. cbn [validated_within].
  f_equal. rewrite (IH n), (IH p) by lia. done.
Qed.

Lemma validated_resume depth awaited k :
  validated ct validate depth (Suspended awaited k)
  = awaited :: validated ct validate depth (resume ct validate depth (Suspended awaited k)).
Proof.
  pose proof (pending_steps_resume depth (Suspended awaited k)) as Hstep.
  unfold validated at 1.
  assert (∃ p, pending_steps (Suspended awaited k) = S p) as [p Hp]
    by (destruct k; simpl; eauto).
  rewrite Hp in *. cbn [validated_within]. f_equal.
  apply validated_within_stable. lia.
Qed.

(** A body suspended on a validation that rejects ends rejected. *)
Lemma settle_rejected depth awaited k e :
  validate awaited = ValidationRejected e →
  settle ct validate depth (Suspended awaited k) = Settled (Rejected e).
Proof. intros Hv. rewrite <- settle_resume. simpl. by rewrite Hv. Qed.

(** The [for ... of] of [parseAttribute] stops at the first element whose
    validation rejects: later elements are neither walked nor validated. *)
Lemma settle_array_loop_rejected depth nested acc xs ys x y rest e :
  Forall2 (λ x y, walk ct depth x nested = Ok y) xs ys →
  Forall (λ y, ∃ violations, validate y = ValidationResolved violations) ys →
  walk ct depth x nested = Ok y →
  validate y = ValidationRejected e →
  settle ct validate depth (array_loop (walk ct depth) nested acc (xs ++ x :: rest))
  = Settled (Rejected e)
  ∧ validated ct validate depth (array_loop (walk ct depth) nested acc (xs ++ x :: rest))
    = ys ++ [y].
Proof.
  intros Hwalk. revert acc.
  induction Hwalk as [|x0 y0 xs ys Hx0 Hxs IH]; intros acc Hvalid Hx Hy; simpl.
  - rewrite Hx. split; [by apply settle_rejected|].
    rewrite validated_resume. simpl. by rewrite Hy.
  - apply Forall_cons in Hvalid as [[violations Hy0] Hvalid].
    rewrite Hx0. rewrite <- settle_resume, validated_resume. simpl. rewrite Hy0.
    destruct (IH (acc ++ [y0]) Hvalid Hx Hy) as [-> ->]. done.
Qed.

End walker_facts.

Lemma for_of_Throw_inv {A S} (xs : list A) (body : A → S → result S) s e :
  for_of xs body s = Throw e → ∃ x s', x ∈ xs ∧ body x s' = Throw e.
Proof.
  revert s. induction xs as [|x xs IH]; intros s; simpl; [done|].
  destruct (body x s) as [s'|e'] eqn:Hbody; simpl.
  - intros (x' & s'' & Hin & H)%IH. exists x', s''. split; [by right | done].
  - intros [= ->]. exists x, s. split; [left | done].
Qed.

(** The guard of line 133 is never the one that stops [walk]. *)
Lemma walk_never_Missing_metadata ct stack data Target :
  walk ct stack data Target ≠ Throw (Error "Missing metadata!").
Proof.
  destruct stack as [|depth]; simpl; [done|].
  destruct (construct Target) as [instance|e] eqn:Hnew; simpl.
  2:{ destruct Target; simpl in Hnew; congruence. }
  destruct (staticDataMeta_of ct Target) as [reg|]; simpl; [|done].
  intros (key & s' & _ & Hbody)%for_of_Throw_inv.
  destruct data; simpl in Hbody; try done;
    by repeat match type of Hbody with
              | context [if ?b then _ else _] => destruct b
              end.
Qed.

(** C3 on the code.  On a class without [_staticDataMeta], [walk] throws
    the [TypeError] of [Object.keys(undefined)] (line 131), whatever the
    data; the error of the guard of line 133, [Missing metadata!], is
    thrown by no call of [walk] at all. *)
Theorem walk_unannotated_throws_TypeError
    (ct : classes) (c : string) (data : value) (depth : nat) :
  ct !! c = None →
  walk ct (S depth) data (OptClass c)
  = Throw (TypeError "Cannot convert undefined or null to object")
  ∧ ∀ ct' stack data' Target,
      walk ct' stack data' Target ≠ Throw (Error "Missing metadata!").
Proof.
  intros Hnone. split; [|apply walk_never_Missing_metadata].
  simpl. by rewrite Hnone.
Qed.

Lemma walk_unannotated_throws_TypeError_witness :
  Shop.table !! "Unannotated" = None
  ∧ walk Shop.table 1 (VObj []) (OptClass "Unannotated")
    = Throw (TypeError "Cannot convert undefined or null to object").
Proof.
  split; [reflexivity|].
  refine (proj1 (walk_unannotated_throws_TypeError Shop.table "Unannotated" (VObj []) 0 _)).
  reflexivity.
Defined.

(** C1 on the code.  [walk] awaits nothing.  Whenever the body of
    [parseAttribute] for a field has called the validation on a nested
    instance and awaits it (which is what it does for an Object-kind
    field and for a non-empty Array-kind field), [walk] returns the
    parent instance with that suspended body in the field.  When the
    awaited validation then rejects, the promise in the field rejects;
    the call of [walk] has returned and is not affected. *)
Theorem walk_returns_before_nested_validation
    (ct : classes) (validate : value → validation) (depth : nat)
    (c : string) (reg : list (string * IMetaData)) (f : string) (d : IMetaData)
    (data val child : value) (k : kont) (e : error) :
  ct !! c = Some reg →
  wf_props reg →
  prop_lookup f reg = Some d →
  get_prop data f = Ok val →
  parseAttribute ct (S depth) val (Some d) = Suspended child k →
  validate child = ValidationRejected e →
  ∃ props,
    walk ct (S (S depth)) data (OptClass c) = Ok (VInst c props)
    ∧ prop_lookup f props = Some (VPromise (Suspended child k))
    ∧ settle ct validate depth (Suspended child k) = Settled (Rejected e).
Proof.
  intros Hreg Hwf Hd Hval Hbody Hreject.
  destruct (walk_at_field ct (S depth) data c reg f d val) as (props & Hwalk & Hf);
    [done | done | by apply prop_lookup_elem_of | done |].
  exists props. split_and!; [done | by rewrite Hf, Hbody |].
  by apply settle_rejected.
Qed.

Lemma walk_returns_before_nested_validation_witness :
  ∃ props,
    walk Family.table 4 Family.raw (OptClass "Parent") = Ok (VInst "Parent" props)
    ∧ prop_lookup "child" props = Some (VPromise (Suspended Family.child KObject))
    ∧ settle Family.table Family.validate_rejecting 2 (Suspended Family.child KObject)
      = Settled (Rejected (ValidationError ["name should not be empty"])).
Proof.
  refine (walk_returns_before_nested_validation Family.table Family.validate_rejecting 2
            "Parent" _ "child" _ Family.raw _ Family.child KObject _ _ _ _ _ _ _).
  - reflexivity.
  - compute_done.
  - reflexivity.
  - reflexivity.
  - reflexivity.
  - reflexivity.
Defined.

(** The violations a validation resolves with are dropped: the promise of
    the field fulfils with all three elements. *)
Example validation_violations_are_dropped :
  settle Shop.table Shop.validate_reporting 4
    (Suspended (Shop.tag "red")
       (KArray [] [VObj [("label", VStr "")]; VObj [("label", VStr "blue")]]
          (OptClass "Tag")))
  = Settled (Fulfilled (VArr [Shop.tag "red"; Shop.tag ""; Shop.tag "blue"])).
Proof. by vm_compute. Qed.

(** C2 on the code.  After [walk], a Scalar-kind field holds the promise
    [parseAttribute] returned, already fulfilled with the raw value [v],
    and not [v] itself: [walk({field: 42}, C).field] is a promise, not
    [42]. *)
Theorem walk_scalar_field_is_promise
    (ct : classes) (depth : nat) (c : string) (reg : list (string * IMetaData))
    (f : string) (d : IMetaData) (data v : value) :
  ct !! c = Some reg →
  wf_props reg →
  prop_lookup f reg = Some d →
  type d = Scalar →
  get_prop data f = Ok v →
  is_promise v = false →
  ∃ props,
    walk ct (S (S depth)) data (OptClass c) = Ok (VInst c props)
    ∧ prop_lookup f props = Some (VPromise (Settled (Fulfilled v)))
    ∧ prop_lookup f props ≠ Some v.
Proof.
  intros Hreg Hwf Hd Hkind Hv Hraw.
  destruct (walk_at_field ct (S depth) data c reg f d v) as (props & Hwalk & Hf);
    [done | done | by apply prop_lookup_elem_of | done |].
  simpl in Hf. rewrite Hkind in Hf.
  exists props. split_and!; [done | done |].
  rewrite Hf. intros [= Heq]. by rewrite <- Heq in Hraw.
Qed.

Lemma walk_scalar_field_is_promise_witness :
  ∃ props,
    walk Plain.table 2 (VObj [("field", VNum 42)]) (OptClass "C") = Ok (VInst "C" props)
    ∧ prop_lookup "field" props = Some (VPromise (Settled (Fulfilled (VNum 42))))
    ∧ prop_lookup "field" props ≠ Some (VNum 42).
Proof.
  refine (walk_scalar_field_is_promise Plain.table 0 "C" _ "field" _
            (VObj [("field", VNum 42)]) (VNum 42) _ _ _ _ _ _).
  - reflexivity.
  - compute_done.
  - reflexivity.
  - reflexivity.
  - reflexivity.
  - reflexivity.
Defined.

Example walk_scalar_string :
  walk Plain.table 2 (VObj [("field", VStr "x")]) (OptClass "C")
  = Ok (VInst "C" [("field", VPromise (Settled (Fulfilled (VStr "x"))))]).
Proof. by vm_compute. Qed.

(** C4 on the code.  Let the raw sequence at an Array-kind field be
    [xs ++ x :: rest], where the elements of [xs] walk and validate and
    the validation of the walked [x] rejects with [e].  Then [walk]
    returns an instance all the same.  The promise in the field rejects
    with [e], and its body has called the validation on the walked
    elements of [xs] and on the walked [x], in this order, and on nothing
    of [rest]. *)
Theorem walk_returns_despite_invalid_element
    (ct : classes) (validate : value → validation) (depth : nat)
    (c : string) (reg : list (string * IMetaData)) (f : string) (d : IMetaData)
    (data : value) (xs ys : list value) (x y : value) (rest : list value) (e : error) :
  ct !! c = Some reg →
  wf_props reg →
  prop_lookup f reg = Some d →
  type d = Array →
  get_prop data f = Ok (VArr (xs ++ x :: rest)) →
  Forall2 (λ x y, walk ct depth x (opts d) = Ok y) xs ys →
  Forall (λ y, ∃ violations, validate y = ValidationResolved violations) ys →
  walk ct depth x (opts d) = Ok y →
  validate y = ValidationRejected e →
  ∃ props t,
    walk ct (S (S depth)) data (OptClass c) = Ok (VInst c props)
    ∧ prop_lookup f props = Some (VPromise t)
    ∧ settle ct validate depth t = Settled (Rejected e)
    ∧ validated ct validate depth t = ys ++ [y].
Proof.
  intros Hreg Hwf Hd Hkind Hdata Hwalk Hvalid Hx Hy.
  destruct (walk_at_field ct (S depth) data c reg f d (VArr (xs ++ x :: rest)))
    as (props & Hw & Hf); [done | done | by apply prop_lookup_elem_of | done |].
  exists props, (parseAttribute ct (S depth) (VArr (xs ++ x :: rest)) (Some d)).
  split_and!; [done | done | |]; simpl; rewrite Hkind; simpl;
    by eapply (settle_array_loop_rejected ct validate depth (opts d) []).
Qed.

Lemma walk_returns_despite_invalid_element_witness :
  ∃ props t,
    walk Shop.table 4 Shop.raw_invalid (OptClass "Item") = Ok (VInst "Item" props)
    ∧ prop_lookup "tags" props = Some (VPromise t)
    ∧ settle Shop.table Shop.validate_rejecting 2 t
      = Settled (Rejected (ValidationError ["label should not be empty"]))
    ∧ validated Shop.table Shop.validate_rejecting 2 t
      = [Shop.tag "red"] ++ [Shop.tag ""].
Proof.
  refine (walk_returns_despite_invalid_element Shop.table Shop.validate_rejecting 2
            "Item" _ "tags" _ Shop.raw_invalid
            [VObj [("label", VStr "red")]] [Shop.tag "red"]
            (VObj [("label", VStr "")]) (Shop.tag "")
            [VObj [("label", VStr "blue")]] _ _ _ _ _ _ _ _ _ _).
  - reflexivity.
  - compute_done.
  - reflexivity.
  - reflexivity.
  - reflexivity.
  - repeat constructor.
  - repeat constructor; by eexists.
  - reflexivity.
  - reflexivity.
Defined.

(** C6 on the code.  Let [f] be an Array-kind field and [xs] the raw
    sequence at [f].  What [walk] leaves in the field is not a sequence:
    it is the promise of the array branch of [parseAttribute], whatever
    [xs] is.  The sequence only exists as the value this promise fulfils
    with, once every element has walked and every validation has
    resolved; that value has the walked elements in the order of [xs].
    For the empty sequence the field holds a promise fulfilled with the
    empty sequence. *)
Theorem array_field_holds_promise_of_sequence
    (ct : classes) (validate : value → validation) (depth : nat)
    (c : string) (reg : list (string * IMetaData)) (f : string) (d : IMetaData)
    (data : value) (xs ys : list value) :
  ct !! c = Some reg →
  wf_props reg →
  prop_lookup f reg = Some d →
  type d = Array →
  get_prop data f = Ok (VArr xs) →
  Forall2 (λ x y, walk ct depth x (opts d) = Ok y) xs ys →
  Forall (λ y, ∃ violations, validate y = ValidationResolved violations) ys →
  ∃ props t,
    walk ct (S (S depth)) data (OptClass c) = Ok (VInst c props)
    ∧ prop_lookup f props = Some (VPromise t)
    ∧ prop_lookup f props ≠ Some (VArr ys)
    ∧ settle ct validate depth t = Settled (Fulfilled (VArr ys))
    ∧ (xs = [] → t = Settled (Fulfilled (VArr []))).
Proof.
  intros Hreg Hwf Hd Hkind Hxs Hwalk Hvalid.
  destruct (walk_at_field ct (S depth) data c reg f d (VArr xs)) as (props & Hw & Hf);
    [done | done | by apply prop_lookup_elem_of | done |].
  exists props, (parseAttribute ct (S depth) (VArr xs) (Some d)).
  split_and!; [done | done | by rewrite Hf | |].
  - simpl. rewrite Hkind. simpl. by apply (settle_array_loop ct validate depth (opts d) []).
  - intros ->. simpl. by rewrite Hkind.
Qed.

Lemma array_field_holds_promise_of_sequence_witness :
  ∃ props t,
    walk Shop.table 4 Shop.raw (OptClass "Item") = Ok (VInst "Item" props)
    ∧ prop_lookup "tags" props = Some (VPromise t)
    ∧ prop_lookup "tags" props ≠ Some (VArr [Shop.tag "red"; Shop.tag "blue"])
    ∧ settle Shop.table (λ _, ValidationResolved []) 2 t
      = Settled (Fulfilled (VArr [Shop.tag "red"; Shop.tag "blue"]))
    ∧ ([VObj [("label", VStr "red")]; VObj [("label", VStr "blue")]] = []
       → t = Settled (Fulfilled (VArr []))).
Proof.
  refine (array_field_holds_promise_of_sequence Shop.table (λ _, ValidationResolved []) 2
            "Item" _ "tags" _ Shop.raw _ _ _ _ _ _ _ _ _).
  - reflexivity.
  - compute_done.
  - reflexivity.
  - reflexivity.
  - reflexivity.
  - repeat constructor.
  - repeat constructor; by eexists.
Defined.

(** The field as [walk] returns it on [Shop.raw]: the body of
    [parseAttribute] is suspended on the validation of the first tag,
    and the second tag has not been walked yet. *)
Example array_field_pending_at_return :
  walk Shop.table 4 Shop.raw (OptClass "Item") = Ok Demo.loaded
  ∧ get_prop Demo.loaded "tags"
    = Ok (VPromise (Suspended (Shop.tag "red")
                      (KArray [] [VObj [("label", VStr "blue")]] (OptClass "Tag")))).
Proof. split; by vm_compute. Qed.

(** ** The module *)

Section module_facts.
Context {W : Type} `{StaticDataModule W}.
Variable ct : classes.
Variable stack : nat.

(** [import] stops at its first step when [parse] throws. *)
Lemma import_parse_Throw (m : module_state W) data e :
  parse ct stack data = Throw e → import ct stack data m = (Throw e, m).
Proof.
  intros Hparse. unfold import, validate, lift_result, mbind, M_bind.
  by rewrite Hparse.
Qed.

(** What [setup] leaves, case by case. *)
Lemma setup_result (m : module_state W) :
  setup ct stack m
  = (Ok (),
     {| staticData :=
          match load (backend m) with
          | (Ok data, _) =>
              match parse ct stack (VStr data) with
              | Ok parsed => parsed
              | Throw _ => VInst StaticDataClass []
              end
          | (Throw _, _) => VInst StaticDataClass []
          end;
        backend := (load (backend m)).2;
        calls := calls m ++ [CallLoad; CallCallback None] |}).
Proof.
  unfold setup, try_catch, do_load, on_backend, record, set_staticData,
    lift_result, mbind, M_bind. simpl.
  destruct (load (backend m)) as [[data|e] w]; simpl.
  - destruct (parse ct stack (VStr data)); simpl; by rewrite <- app_assoc.
  - by rewrite <- app_assoc.
Qed.
End module_facts.

(** When the walk of the validate step throws, [import] throws the same
    error and leaves the module as it was.  On a schema class the walk
    only throws for a raw node that is [undefined] or [null]. *)
Lemma import_stops_when_walk_throws
    {W : Type} `{StaticDataModule W} (ct : classes) (stack : nat)
    (m : module_state W) (data raw : value) (e : error) :
  JSON_parse data = Ok raw →
  walk ct stack raw (OptClass StaticDataClass) = Throw e →
  import ct stack data m = (Throw e, m).
Proof.
  intros Hjson Hwalk. apply import_parse_Throw. unfold parse. by rewrite Hjson.
Qed.



(** The whole import of the invalid document: it returns, having stored
    and loaded. *)
Example import_of_invalid_data_returns :
  @import _ Careless.module Shop.table 4 (VStr Careless.document) Demo.running
  = (Ok (), {| staticData := Demo.loaded;
               backend := Some Careless.document;
               calls := [CallStore Careless.document; CallLoad] |}).
Proof. by vm_compute. Qed.

(** C10.  Whatever [load] and [parse] do, [setup] returns, having called
    [load] and then the callback, with no error argument; [staticData] is
    the parsed data when both went through and a new instance of
    [StaticDataClass] without properties when either threw. *)
Theorem setup_always_calls_back_without_error
    {W : Type} `{StaticDataModule W} (ct : classes) (stack : nat)
    (m : module_state W) :
  (setup ct stack m).1 = Ok ()
  ∧ calls (setup ct stack m).2 = calls m ++ [CallLoad; CallCallback None]
  ∧ staticData (setup ct stack m).2
    = match load (backend m) with
      | (Ok data, _) =>
          match parse ct stack (VStr data) with
          | Ok parsed => parsed
          | Throw _ => VInst StaticDataClass []
          end
      | (Throw _, _) => VInst StaticDataClass []
      end.
Proof. by rewrite setup_result. Qed.

(** An import whose walk returns goes on to [store] and [load]; it does
    not assign [staticData]. *)
Example import_reaches_store :
  import Shop.table 4 (VStr Demo.document) Demo.running
  = (Ok (), {| staticData := Demo.loaded;
               backend := Some Demo.document;
               calls := [CallStore Demo.document; CallLoad] |}).
Proof. by vm_compute. Qed.

(** [setup] in its three cases: the data loads and parses, the file is
    missing, the file holds something [JSON.parse] refuses. *)
Example setup_three_ways :
  let start file := {| staticData := VUndefined; backend := file; calls := [] |} in
  setup Shop.table 4 (start (Some Demo.document))
  = (Ok (), {| staticData := Demo.loaded; backend := Some Demo.document;
               calls := [CallLoad; CallCallback None] |})
  ∧ setup Shop.table 4 (start None)
    = (Ok (), {| staticData := VInst "Item" []; backend := None;
                 calls := [CallLoad; CallCallback None] |})
  ∧ setup Shop.table 4 (start (Some "garbage"))
    = (Ok (), {| staticData := VInst "Item" []; backend := Some "garbage";
                 calls := [CallLoad; CallCallback None] |}).
Proof. by vm_compute. Qed.

(** * Further properties *)

(** ** Field Descriptor Registry *)

Section registry_more.
Variable design_type : string → string → constructor.

Lemma prop_assign_idemp {A} k (v : A) o : prop_assign k v (prop_assign k v o) = prop_assign k v o.
Proof.
  induction o as [|[k' w] o IH]; simpl.
  - by rewrite String.eqb_refl.
  - destruct (String.eqb k k') eqn:E; simpl; rewrite E; [done | by rewrite IH].
Qed.

(** What one registration does to the table. *)
Lemma StaticData_registry r o target key ct ct' :
  StaticData design_type r o target key ct = Ok ct' →
  ∃ m, computeMetadata design_type target key r o = Ok m
       ∧ ct' !! target = Some (prop_assign key m (default [] (ct !! target)))
       ∧ ∀ c, c ≠ target → ct' !! c = ct !! c.
Proof.
  unfold StaticData. intros (m & Hm & [= <-])%rbind_Ok. exists m. split; [done|]. split.
  - rewrite lookup_alter_eq. case_bool_decide as Hnone.
    + by rewrite lookup_insert_eq, Hnone.
    + by destruct (ct !! target).
  - intros c Hc. rewrite lookup_alter_ne by done.
    case_bool_decide; [by rewrite lookup_insert_ne|done].
Qed.

Lemma StaticData_is_ok r o target key ct :
  is_ok (StaticData design_type r o target key ct)
  = is_ok (instantiate (design_type target key)).
Proof.
  unfold StaticData, computeMetadata. by destruct (instantiate (design_type target key)).
Qed.

(** X1.  The decorators of a class body all go through exactly when the
    declared type of every annotated property can be instantiated without
    arguments, whatever the table was before. *)
Theorem annotate_succeeds_iff_instantiable
    (target : string) (body : list annotation) (ct : classes) :
  is_ok (annotate design_type target body ct) = true
  ↔ Forall (λ a, is_ok (instantiate (design_type target (a_key a))) = true) body.
Proof.
  revert ct. induction body as [|a body IH]; intros ct; simpl.
  - split; [constructor | done].
  - rewrite Forall_cons, <- (StaticData_is_ok (a_remote a) (a_child a) target (a_key a) ct).
    destruct (StaticData design_type (a_remote a) (a_child a) target (a_key a) ct)
      as [ct'|e]; simpl.
    + rewrite IH. tauto.
    + split; [done | by intros [? _]].
Qed.

(** The registry after the decorators of a class body. *)
Lemma annotate_registry
    (target : string) (body : list annotation) (ct ct' : classes) :
  NoDup (a_key <$> body) →
  (∀ a, a ∈ body → a_key a ∉ own_keys (default [] (ct !! target))) →
  annotate design_type target body ct = Ok ct' →
  ∃ new,
    default [] (ct' !! target) = default [] (ct !! target) ++ new
    ∧ Forall2 (λ a field,
                 field.1 = a_key a
                 ∧ computeMetadata design_type target (a_key a) (a_remote a) (a_child a)
                   = Ok field.2
                 ∧ remoteName field.2 = a_remote a ∧ opts field.2 = a_child a)
        body new.
Proof.
  revert ct. induction body as [|a body IH]; intros ct Hnodup Hfresh; simpl.
  - intros [= <-]. exists []. by rewrite app_nil_r.
  - intros (ct1 & Ha & Hrest)%rbind_Ok.
    destruct (StaticData_registry _ _ _ _ _ _ Ha) as (m & Hm & Hreg & _).
    rewrite fmap_cons in Hnodup. apply NoDup_cons in Hnodup as [Hnotin Hnodup].
    assert (default [] (ct1 !! target) = default [] (ct !! target) ++ [(a_key a, m)]) as Hreg1.
    { rewrite Hreg. simpl. apply prop_assign_fresh, Hfresh. left. }
    destruct (IH ct1 Hnodup) as (new & Hnew & Hall); [|done|].
    { intros b Hb. rewrite Hreg1. unfold own_keys. rewrite map_app. simpl.
      rewrite elem_of_app, list_elem_of_singleton. intros [Hin|Heq].
      - by apply (Hfresh b); [right|].
      - apply Hnotin. rewrite <- Heq. by apply list_elem_of_fmap_2. }
    exists ((a_key a, m) :: new). split.
    + by rewrite Hnew, Hreg1, <- app_assoc.
    + constructor; [|done]. simpl. split_and!; [done | done | |].
      * unfold computeMetadata in Hm. by apply rbind_Ok in Hm as (? & _ & [= <-]).
      * unfold computeMetadata in Hm. by apply rbind_Ok in Hm as (? & _ & [= <-]).
Qed.

(** X2.  Annotating properties with new, pairwise different names appends
    their descriptors to the registry of the class, in annotation order:
    each carries the given remote name and options and the kind of its
    declared type, and [Object.keys] lists the names it listed before,
    then the new ones as annotated. *)
Theorem annotate_appends_in_order
    (target : string) (body : list annotation) (ct ct' : classes) :
  NoDup (a_key <$> body) →
  (∀ a, a ∈ body → a_key a ∉ own_keys (default [] (ct !! target))) →
  annotate design_type target body ct = Ok ct' →
  ∃ new,
    default [] (ct' !! target) = default [] (ct !! target) ++ new
    ∧ Forall2 (λ a field,
                 field.1 = a_key a
                 ∧ computeMetadata design_type target (a_key a) (a_remote a) (a_child a)
                   = Ok field.2
                 ∧ remoteName field.2 = a_remote a ∧ opts field.2 = a_child a)
        body new
    ∧ own_keys (default [] (ct' !! target))
      = own_keys (default [] (ct !! target)) ++ (a_key <$> body).
Proof.
  intros Hnodup Hfresh Hrun.
  destruct (annotate_registry target body ct ct' Hnodup Hfresh Hrun) as (new & Hnew & Hall).
  exists new. split_and!; [done | done |].
  rewrite Hnew. unfold own_keys. rewrite map_app. f_equal.
  clear -Hall. induction Hall as [|a [k d] body new (Hk & _) _ IH]; simpl in *;
    [done | by rewrite IH, Hk].
Qed.

(** X4.  Running the same decorator a second time changes nothing: the
    table after the second run is the table after the first. *)
Theorem StaticData_twice_is_once
    (r : string) (o : opts_t) (target key : string) (ct ct1 : classes) :
  StaticData design_type r o target key ct = Ok ct1 →
  StaticData design_type r o target key ct1 = Ok ct1.
Proof.
  intros H1. destruct (StaticData_registry _ _ _ _ _ _ H1) as (m & Hm & Hreg & _).
  unfold StaticData. rewrite Hm. simpl.
  rewrite bool_decide_eq_false_2 by (by rewrite Hreg). f_equal.
  apply map_eq. intros c. destruct (decide (c = target)) as [->|Hc].
  - rewrite lookup_alter_eq, Hreg. simpl. by rewrite prop_assign_idemp.
  - by rewrite lookup_alter_ne.
Qed.
End registry_more.

Lemma annotate_appends_in_order_witness :
  ∃ new,
    default [] (Shop.table !! "Item") = default [] (delete "Item" Shop.table !! "Item") ++ new
    ∧ Forall2 (λ a field,
                 field.1 = a_key a
                 ∧ computeMetadata Shop.design_type "Item" (a_key a) (a_remote a) (a_child a)
                   = Ok field.2
                 ∧ remoteName field.2 = a_remote a ∧ opts field.2 = a_child a)
        Shop.Item_body new
    ∧ own_keys (default [] (Shop.table !! "Item"))
      = own_keys (default [] (delete "Item" Shop.table !! "Item"))
        ++ (a_key <$> Shop.Item_body).
Proof.
  refine (annotate_appends_in_order Shop.design_type "Item" Shop.Item_body
            (delete "Item" Shop.table) Shop.table _ _ _).
  - compute_done.
  - intros a _. vm_compute. apply not_elem_of_nil.
  - by vm_compute.
Defined.

Lemma StaticData_twice_is_once_witness :
  StaticData Shop.design_type "Label" OptUndefined "Tag" "label" Shop.table = Ok Shop.table.
Proof.
  refine (StaticData_twice_is_once Shop.design_type "Label" OptUndefined "Tag" "label"
            (delete "Tag" Shop.table) Shop.table _).
  by vm_compute.
Defined.

(** ** Schema Extractor *)

Lemma for_of_mono {A S} (xs : list A) (body body' : A → S → result S) s r :
  (∀ x s s', body x s = Ok s' → body' x s = Ok s') →
  for_of xs body s = Ok r → for_of xs body' s = Ok r.
Proof.
  intros Hmono. revert s. induction xs as [|x xs IH]; intros s; simpl; [done|].
  intros (s' & Hbody & Hrest)%rbind_Ok. rewrite (Hmono _ _ _ Hbody). simpl. by apply IH.
Qed.

(** X5.  A schema that [extractMetaData] returns with some stack left is
    the schema it returns with any deeper stack. *)
Theorem extractMetaData_deeper_stack
    (ct : classes) (stack stack' : nat) (target : opts_t) (s : schema) :
  stack ≤ stack' →
  extractMetaData ct stack target = Ok s →
  extractMetaData ct stack' target = Ok s.
Proof.
  revert stack' target s. induction stack as [|depth IH]; intros stack' target s Hle; [done|].
  destruct stack' as [|depth']; [lia|].
  destruct target as [|c|v]; try done.
  destruct (ct !! c) as [reg|] eqn:Hreg; [|by simpl; rewrite Hreg].
  rewrite !(extractMetaData_unfold ct _ c reg Hreg).
  apply for_of_mono. intros key ret ret' (e & He & [= <-])%rbind_Ok.
  assert (extract_entry ct depth' reg key = Ok e) as ->; [|done].
  unfold extract_entry in *. destruct (prop_lookup key reg) as [d|]; [|done].
  destruct (is_schema_class ct (opts d)); [|done].
  apply rbind_Ok in He as (M & (nested & Hnested & [= <-])%rbind_Ok & [= <-]).
  rewrite (IH depth' (opts d) nested) by (done || lia). done.
Qed.

Lemma extractMetaData_deeper_stack_witness :
  extractMetaData Shop.table 7 (OptClass "Item")
  = Ok [("id", Entry "ID" Scalar (MetaOpts OptUndefined));
        ("tags", Entry "Tags" Array
           (MetaNested [("label", Entry "Label" Scalar (MetaOpts OptUndefined))]))].
Proof.
  refine (extractMetaData_deeper_stack Shop.table 2 7 (OptClass "Item") _ _ _).
  - lia.
  - by vm_compute.
Defined.

(** A class none of whose fields names a schema class is extracted with a
    single frame, to the projection of its registry. *)
Lemma extractMetaData_flat ct depth c reg :
  ct !! c = Some reg → wf_props reg →
  Forall (λ field : string * IMetaData, is_schema_class ct (opts field.2) = false) reg →
  extractMetaData ct (S depth) (OptClass c) = Ok (flat_schema reg).
Proof.
  intros Hreg Hwf Hflat. rewrite (extractMetaData_unfold ct depth c reg Hreg).
  destruct (for_of_collect (extract_entry ct depth reg)
              (λ key ret, let! e := extract_entry ct depth reg key in
                          Ok (prop_assign key e ret))
              (own_keys reg) []) as (out & -> & Hall); try done.
  - intros k _. apply not_elem_of_nil.
  - intros k Hk. apply list_elem_of_In, in_map_iff in Hk as ([k' d] & <- & Hin).
    apply list_elem_of_In in Hin. simpl. unfold extract_entry.
    rewrite (prop_lookup_wf _ _ _ Hwf Hin).
    rewrite Forall_forall in Hflat. specialize (Hflat _ Hin). simpl in Hflat.
    by rewrite Hflat.
  - simpl. f_equal. apply Forall2_own_keys in Hall.
    apply list_eq_same_length with (length reg);
      [by unfold flat_schema; rewrite length_fmap
      | by rewrite <- (Forall2_length _ _ _ Hall) |].
    intros i [k e] fe Hi Ho Hf.
    unfold flat_schema in Hf. rewrite list_lookup_fmap in Hf.
    destruct (reg !! i) as [[k0 d]|] eqn:Hri; [|done]. simpl in Hf. injection Hf as <-.
    destruct (Forall2_lookup_lr _ _ _ _ _ _ Hall Hri Ho) as [Hk He]. simpl in *. subst k0.
    unfold extract_entry in He.
    rewrite (prop_lookup_wf reg k d) in He; [|done|by eapply list_elem_of_lookup_2].
    rewrite Forall_forall in Hflat.
    assert (is_schema_class ct (opts d) = false) as Hd
      by (apply (Hflat (k, d)); by eapply list_elem_of_lookup_2).
    rewrite Hd in He. simpl in He. by injection He as <-.
Qed.

(** X6.  From the decorators to the schema: for a class annotated from
    scratch with pairwise different names, none of whose options is a
    schema class, [extractMetaData] needs one frame and returns one entry
    per annotation, in annotation order, with the local name, the remote
    name, the kind of the declared type and the options as given. *)
Theorem extractMetaData_after_annotate
    (design_type : string → string → constructor) (target : string)
    (body : list annotation) (ct ct' : classes) (depth : nat) :
  ct !! target = None →
  body ≠ [] →
  NoDup (a_key <$> body) →
  annotate design_type target body ct = Ok ct' →
  Forall (λ a, is_schema_class ct' (a_child a) = false) body →
  ∃ out,
    extractMetaData ct' (S depth) (OptClass target) = Ok out
    ∧ Forall2 (λ a e,
                 ∃ m, computeMetadata design_type target (a_key a) (a_remote a) (a_child a)
                      = Ok m
                      ∧ e = (a_key a, Entry (a_remote a) (type m) (MetaOpts (a_child a))))
        body out.
Proof.
  intros Hnone Hne Hnodup Hrun Hflat.
  destruct (annotate_registry design_type target body ct ct' Hnodup)
    as (new & Hnew & Hall); [|done|].
  { intros a _. rewrite Hnone. apply not_elem_of_nil. }
  rewrite Hnone in Hnew. simpl in Hnew.
  assert (ct' !! target = Some new) as Hreg.
  { destruct (ct' !! target) as [reg|] eqn:Hreg; simpl in Hnew; [by subst|].
    subst new. apply Forall2_nil_inv_r in Hall. done. }
  assert (own_keys new = a_key <$> body) as Hkeys.
  { clear -Hall. unfold own_keys. induction Hall as [|a [k d] body new (Hk & _) _ IH]; simpl in *;
      [done | by rewrite IH, Hk]. }
  exists (flat_schema new). split.
  - apply extractMetaData_flat; [done | by unfold wf_props; rewrite Hkeys |].
    clear -Hall Hflat. induction Hall as [|a [k d] body new (_ & _ & _ & Ho) _ IH];
      [constructor|].
    apply Forall_cons in Hflat as [Ha Hflat]. constructor; [|by apply IH].
    simpl in *. by rewrite Ho.
  - unfold flat_schema. apply Forall2_fmap_r.
    eapply Forall2_impl; [exact Hall|].
    intros a [k d] (Hk & Hm & Hr & Ho). simpl in *. exists d. split; [done|].
    by rewrite Hk, Hr, Ho.
Qed.

Lemma extractMetaData_after_annotate_witness :
  ∃ out,
    extractMetaData Shop.table 1 (OptClass "Tag") = Ok out
    ∧ Forall2 (λ a e,
                 ∃ m, computeMetadata Shop.design_type "Tag" (a_key a) (a_remote a) (a_child a)
                      = Ok m
                      ∧ e = (a_key a, Entry (a_remote a) (type m) (MetaOpts (a_child a))))
        Shop.Tag_body out.
Proof.
  refine (extractMetaData_after_annotate Shop.design_type "Tag" Shop.Tag_body
            (delete "Tag" Shop.table) Shop.table 0 _ _ _ _ _).
  - reflexivity.
  - done.
  - compute_done.
  - by vm_compute.
  - repeat constructor.
Defined.

(** ** Schema Walker *)

Lemma for_of_ext_in {A S} (xs : list A) (body body' : A → S → result S) s :
  (∀ x s, x ∈ xs → body x s = body' x s) → for_of xs body s = for_of xs body' s.
Proof.
  revert s. induction xs as [|x xs IH]; intros s Hext; simpl; [done|].
  rewrite Hext by left. destruct (body' x s); simpl; [|done].
  apply IH. intros y s' Hy. apply Hext. by right.
Qed.

Lemma get_prop_is_ok data k : is_ok (get_prop data k) = negb (nullish data).
Proof.
  destruct data; simpl; try done;
    by repeat match goal with |- context [if ?b then _ else _] => destruct b end.
Qed.

Lemma walk_stores_promise ct depth c f d data val :
  field_of ct c f d → get_prop data f = Ok val →
  ∃ props, walk ct (S depth) data (OptClass c) = Ok (VInst c props)
           ∧ prop_lookup f props = Some (VPromise (parseAttribute ct depth val (Some d))).
Proof.
  intros (reg & Hreg & Hwf & Hd) Hval.
  by apply (walk_at_field ct depth data c reg f d val); [| |apply prop_lookup_elem_of|].
Qed.

(** X7.  On a schema class [walk] throws in one case only: the raw node is
    [undefined] or [null] and the registry has a field (the [TypeError]
    of reading a property of it).  In every other case it returns an
    instance of the class whose own properties are the registered names,
    in registry order, each holding a promise; what else the raw node
    holds plays no part. *)
Theorem walk_throws_only_on_nullish
    (ct : classes) (depth : nat) (c : string) (reg : list (string * IMetaData))
    (data : value) :
  ct !! c = Some reg →
  wf_props reg →
  (reg ≠ [] → nullish data = true →
   walk ct (S depth) data (OptClass c)
   = Throw (TypeError "Cannot read properties of undefined or null"))
  ∧ (reg = [] ∨ nullish data = false →
     ∃ props, walk ct (S depth) data (OptClass c) = Ok (VInst c props)
              ∧ own_keys props = own_keys reg
              ∧ Forall (λ p : string * value, is_promise p.2 = true) props).
Proof.
  intros Hreg Hwf. split.
  - intros Hne Hdata. destruct reg as [|[k d] reg]; [done|].
    rewrite (walk_unfold ct depth data c _ Hreg). simpl. unfold walk_field.
    by destruct data.
  - intros Hcase. destruct (walk_Ok ct depth data c reg Hreg Hwf) as (props & Hwalk & Hall).
    { intros k Hk. destruct Hcase as [->|Hdata]; [by apply elem_of_nil in Hk|].
      by rewrite get_prop_is_ok, Hdata. }
    exists props. split; [done|]. split.
    + exact (Forall2_own_keys_eq (λ k v, walk_field ct depth data reg k = Ok v) reg props Hall).
    + clear -Hall. induction Hall as [|[k d] [k' v] reg0 props0 [_ Hv] _ IH];
        constructor; [|done].
      simpl in *. unfold walk_field in Hv.
      by apply rbind_Ok in Hv as (val & _ & [= <-]).
Qed.

Lemma walk_throws_only_on_nullish_witness :
  walk Shop.table 1 VNull (OptClass "Item")
  = Throw (TypeError "Cannot read properties of undefined or null").
Proof.
  refine (proj1 (walk_throws_only_on_nullish Shop.table 0 "Item"
                   [("id", {| remoteName := "ID"; opts := OptUndefined; type := Scalar |});
                    ("tags", {| remoteName := "Tags"; opts := OptClass "Tag";
                                type := Array |})] VNull _ _) _ _).
  - reflexivity.
  - compute_done.
  - done.
  - reflexivity.
Defined.

(** X8.  [walk] reads the raw node at the registered names and nowhere
    else: two raw nodes that read the same at every registered name walk
    to the same result, whatever further keys either has. *)
Theorem walk_reads_registered_names_only
    (ct : classes) (stack : nat) (c : string) (data data' : value) :
  (∀ k, k ∈ own_keys (default [] (ct !! c)) → get_prop data k = get_prop data' k) →
  walk ct stack data (OptClass c) = walk ct stack data' (OptClass c).
Proof.
  intros Hsame. destruct stack as [|depth]; [done|]. simpl.
  destruct (ct !! c) as [reg|]; [|done]. simpl. apply for_of_ext_in.
  intros key instance Hkey. by rewrite (Hsame key Hkey).
Qed.

Lemma walk_reads_registered_names_only_witness :
  walk Shop.table 4 (VObj [("colour", VStr "green"); ("id", VNum 7);
                           ("tags", VArr [VObj [("label", VStr "red")];
                                          VObj [("label", VStr "blue")]])])
    (OptClass "Item")
  = walk Shop.table 4 Shop.raw (OptClass "Item").
Proof.
  refine (walk_reads_registered_names_only Shop.table 4 "Item" _ _ _).
  intros k Hk. vm_compute in Hk.
  apply elem_of_cons in Hk as [->|Hk]; [reflexivity|].
  apply elem_of_cons in Hk as [->|Hk]; [reflexivity|].
  by apply elem_of_nil in Hk.
Defined.

(** X9.  A registered name the raw node does not have reads as
    [undefined], and [walk] returns all the same.  The promise of a
    Scalar-kind field is fulfilled with [undefined]; that of an
    Array-kind field is rejected ([undefined] is not iterable); that of
    an Object-kind field is rejected with a [TypeError] too, the nested
    walk having nothing to read from. *)
Theorem walk_missing_key
    (ct : classes) (depth : nat) (c f : string) (d : IMetaData) (data : value) :
  field_of ct c f d →
  get_prop data f = Ok VUndefined →
  (∀ c', opts d = OptClass c' → ct !! c' ≠ Some []) →
  ∃ props t,
    walk ct (S (S (S depth))) data (OptClass c) = Ok (VInst c props)
    ∧ prop_lookup f props = Some (VPromise t)
    ∧ match type d with
      | Scalar => t = Settled (Fulfilled VUndefined)
      | Array => t = Settled (Rejected (TypeError "val is not iterable"))
      | Object => ∃ msg, t = Settled (Rejected (TypeError msg))
      end.
Proof.
  intros Hfield Hval Hnested.
  destruct (walk_stores_promise ct (S (S depth)) c f d data VUndefined Hfield Hval)
    as (props & Hwalk & Hf).
  exists props, (parseAttribute ct (S (S depth)) VUndefined (Some d)).
  split_and!; [done | done |].
  cbn [parseAttribute]. destruct (type d); [done | done |].
  cbn [walk]. destruct (opts d) as [|c'|v] eqn:Ho; simpl; eauto.
  destruct (ct !! c') as [[|[k dk] reg']|] eqn:Hc'; simpl; eauto.
  by destruct (Hnested c').
Qed.

Lemma walk_missing_key_witness :
  ∃ props t,
    walk Shop.table 3 (VObj [("id", VNum 7)]) (OptClass "Item") = Ok (VInst "Item" props)
    ∧ prop_lookup "tags" props = Some (VPromise t)
    ∧ t = Settled (Rejected (TypeError "val is not iterable")).
Proof.
  refine (walk_missing_key Shop.table 0 "Item" "tags"
            {| remoteName := "Tags"; opts := OptClass "Tag"; type := Array |}
            (VObj [("id", VNum 7)]) _ _ _).
  - eexists. split_and!; [reflexivity | compute_done | reflexivity].
  - reflexivity.
  - intros c' [= <-]. by vm_compute.
Defined.

(** X10.  When the nested class of an Object-kind field, or of an
    Array-kind field with at least one element, is no class or a class
    that was never annotated, [walk] still returns; the promise of the
    field is rejected with a [TypeError] before any validation is
    called. *)
Theorem walk_nested_class_without_registry
    (ct : classes) (depth : nat) (c f : string) (d : IMetaData) (data val : value) :
  field_of ct c f d →
  get_prop data f = Ok val →
  staticDataMeta_of ct (opts d) = None →
  type d = Object ∨ (type d = Array ∧ ∃ x rest, iterate val = Ok (x :: rest)) →
  ∃ props msg,
    walk ct (S (S (S depth))) data (OptClass c) = Ok (VInst c props)
    ∧ prop_lookup f props = Some (VPromise (Settled (Rejected (TypeError msg)))).
Proof.
  intros Hfield Hval Hmeta Hkind.
  destruct (walk_stores_promise ct (S (S depth)) c f d data val Hfield Hval)
    as (props & Hwalk & Hf).
  assert (∀ x, ∃ msg, walk ct (S depth) x (opts d) = Throw (TypeError msg)) as Hthrow.
  { intros x. simpl. destruct (opts d) as [|c'|v]; simpl; eauto.
    simpl in Hmeta. rewrite Hmeta. simpl. eauto. }
  exists props. rewrite Hf. cbn [parseAttribute].
  destruct Hkind as [->|[-> (x & rest & ->)]].
  - destruct (Hthrow val) as [msg ->]. eauto.
  - unfold array_loop. destruct (Hthrow x) as [msg ->]. eauto.
Qed.

Lemma walk_nested_class_without_registry_witness :
  ∃ props msg,
    walk Orphan.table 3 (VObj [("part", VObj [])]) (OptClass "Holder")
    = Ok (VInst "Holder" props)
    ∧ prop_lookup "part" props = Some (VPromise (Settled (Rejected (TypeError msg)))).
Proof.
  refine (walk_nested_class_without_registry Orphan.table 0 "Holder" "part"
            {| remoteName := "Part"; opts := OptUndefined; type := Object |}
            (VObj [("part", VObj [])]) (VObj []) _ _ _ _).
  - eexists. split_and!; [reflexivity | compute_done | reflexivity].
  - reflexivity.
  - reflexivity.
  - by left.
Defined.

(** X11.  A value at an Array-kind field that is neither an array nor a
    string rejects the promise of the field ([val is not iterable]);
    [walk] returns and the other fields are walked. *)
Theorem walk_array_field_not_iterable
    (ct : classes) (depth : nat) (c f : string) (d : IMetaData) (data val : value) :
  field_of ct c f d →
  type d = Array →
  get_prop data f = Ok val →
  (∀ elems, val ≠ VArr elems) →
  (∀ s, val ≠ VStr s) →
  ∃ props,
    walk ct (S (S depth)) data (OptClass c) = Ok (VInst c props)
    ∧ own_keys props = own_keys (default [] (ct !! c))
    ∧ prop_lookup f props
      = Some (VPromise (Settled (Rejected (TypeError "val is not iterable")))).
Proof.
  intros Hfield Hkind Hval Harr Hstr.
  destruct (walk_stores_promise ct (S depth) c f d data val Hfield Hval)
    as (props & Hwalk & Hf).
  exists props. split; [done|]. split.
  - destruct Hfield as (reg & Hreg & Hwf & _).
    destruct (walk_Ok ct (S depth) data c reg Hreg Hwf) as (props' & Hwalk' & Hall).
    { intros k _. by eapply get_prop_readable. }
    rewrite Hreg. simpl. replace props with props' by congruence.
    exact (Forall2_own_keys_eq (λ k v, walk_field ct (S depth) data reg k = Ok v)
             reg props' Hall).
  - rewrite Hf. simpl. rewrite Hkind.
    destruct val as [| |b|n|s|elems|ps|cls ps|t]; simpl; try done;
      [by destruct (Hstr s) | by destruct (Harr elems)].
Qed.

Lemma walk_array_field_not_iterable_witness :
  ∃ props,
    walk Shop.table 2 (VObj [("id", VNum 7); ("tags", VNum 3)]) (OptClass "Item")
    = Ok (VInst "Item" props)
    ∧ own_keys props = own_keys (default [] (Shop.table !! "Item"))
    ∧ prop_lookup "tags" props
      = Some (VPromise (Settled (Rejected (TypeError "val is not iterable")))).
Proof.
  refine (walk_array_field_not_iterable Shop.table 0 "Item" "tags"
            {| remoteName := "Tags"; opts := OptClass "Tag"; type := Array |}
            (VObj [("id", VNum 7); ("tags", VNum 3)]) (VNum 3) _ _ _ _ _).
  - eexists. split_and!; [reflexivity | compute_done | reflexivity].
  - reflexivity.
  - reflexivity.
  - done.
  - done.
Defined.

(** *** Validation *)

Section validation_more.
Variable ct : classes.
Variable validate : value → validation.

Lemma validated_array_loop depth nested acc xs ys :
  Forall2 (λ x y, walk ct depth x nested = Ok y) xs ys →
  Forall (λ y, ∃ violations, validate y = ValidationResolved violations) ys →
  validated ct validate depth (array_loop (walk ct depth) nested acc xs) = ys.
Proof.
  intros Hwalk. revert acc.
  induction Hwalk as [|x y xs ys Hx Hxs IH]; intros acc Hvalid; [done|].
  apply Forall_cons in Hvalid as [[violations Hy] Hvalid].
  simpl. rewrite Hx, validated_resume. simpl. rewrite Hy. by rewrite IH.
Qed.

(** The loop stops at the first element whose walk throws. *)
Lemma settle_array_loop_throws depth nested acc xs ys x rest e :
  Forall2 (λ x y, walk ct depth x nested = Ok y) xs ys →
  Forall (λ y, ∃ violations, validate y = ValidationResolved violations) ys →
  walk ct depth x nested = Throw e →
  settle ct validate depth (array_loop (walk ct depth) nested acc (xs ++ x :: rest))
  = Settled (Rejected e)
  ∧ validated ct validate depth (array_loop (walk ct depth) nested acc (xs ++ x :: rest))
    = ys.
Proof.
  intros Hwalk. revert acc.
  induction Hwalk as [|x0 y0 xs ys Hx0 Hxs IH]; intros acc Hvalid Hx; simpl.
  - by rewrite Hx.
  - apply Forall_cons in Hvalid as [[violations Hy0] Hvalid].
    rewrite Hx0. rewrite <- settle_resume, validated_resume. simpl. rewrite Hy0.
    destruct (IH (acc ++ [y0]) Hvalid Hx) as [-> ->]. done.
Qed.

Lemma validated_length depth t :
  length (validated ct validate depth t) ≤ pending_steps t.
Proof.
  unfold validated. generalize (pending_steps t) at 1. intros n. revert t.
  induction n as [|n IH]; intros t.
  - destruct t as [o|awaited [|acc rest nested]]; simpl; lia.
  - destruct t as [o|awaited k]; cbn [validated_within length]; [lia|].
    pose proof (IH (resume ct validate depth (Suspended awaited k))) as Hlen.
    pose proof (pending_steps_resume ct validate depth (Suspended awaited k)) as Hstep.
    assert (1 ≤ pending_steps (Suspended awaited k)) by (destruct k; simpl; lia).
    lia.
Qed.

Lemma resume_outcome_only depth t :
  resume ct (λ v, outcome_only (validate v)) depth t = resume ct validate depth t.
Proof. destruct t as [o|awaited k]; simpl; [done|]. by destruct (validate awaited). Qed.

Lemma iter_ext {A} (f g : A → A) n x : (∀ y, f y = g y) → Nat.iter n f x = Nat.iter n g x.
Proof. intros Hfg. induction n as [|n IH]; simpl; [done | by rewrite IH, Hfg]. Qed.

Lemma validated_within_outcome_only n depth t :
  validated_within ct (λ v, outcome_only (validate v)) n depth t
  = validated_within ct validate n depth t.
Proof.
  revert t. induction n as [|n IH]; intros [o|awaited k]; cbn [validated_within]; try done.
  by rewrite resume_outcome_only, IH.
Qed.
End validation_more.

(** X12.  When every element of the sequence at an Array-kind field walks
    and every validation resolves, the body of [parseAttribute] calls the
    validation on each walked element once, in source order, and on
    nothing else. *)
Theorem array_field_validates_in_source_order
    (ct : classes) (validate : value → validation) (depth : nat)
    (c f : string) (d : IMetaData) (data : value) (xs ys : list value) :
  field_of ct c f d →
  type d = Array →
  get_prop data f = Ok (VArr xs) →
  Forall2 (λ x y, walk ct depth x (opts d) = Ok y) xs ys →
  Forall (λ y, ∃ violations, validate y = ValidationResolved violations) ys →
  ∃ props t,
    walk ct (S (S depth)) data (OptClass c) = Ok (VInst c props)
    ∧ prop_lookup f props = Some (VPromise t)
    ∧ validated ct validate depth t = ys.
Proof.
  intros Hfield Hkind Hval Hwalk Hvalid.
  destruct (walk_stores_promise ct (S depth) c f d data (VArr xs) Hfield Hval)
    as (props & Hw & Hf).
  exists props, (parseAttribute ct (S depth) (VArr xs) (Some d)).
  split_and!; [done | done |]. simpl. rewrite Hkind. simpl.
  by apply validated_array_loop.
Qed.

Lemma array_field_validates_in_source_order_witness :
  ∃ props t,
    walk Shop.table 4 Shop.raw (OptClass "Item") = Ok (VInst "Item" props)
    ∧ prop_lookup "tags" props = Some (VPromise t)
    ∧ validated Shop.table Shop.validate_rejecting 2 t = [Shop.tag "red"; Shop.tag "blue"].
Proof.
  refine (array_field_validates_in_source_order Shop.table Shop.validate_rejecting 2
            "Item" "tags" {| remoteName := "Tags"; opts := OptClass "Tag"; type := Array |}
            Shop.raw _ _ _ _ _ _ _).
  - eexists. split_and!; [reflexivity | compute_done | reflexivity].
  - reflexivity.
  - reflexivity.
  - repeat constructor.
  - repeat constructor; by eexists.
Defined.

(** X13.  For an Object-kind field whose value walks and whose validation
    resolves, the promise of the field fulfils with the walked instance;
    the validation is called once, on that instance. *)
Theorem object_field_fulfils_with_instance
    (ct : classes) (validate : value → validation) (depth : nat)
    (c f : string) (d : IMetaData) (data val child : value) (violations : list string) :
  field_of ct c f d →
  type d = Object →
  get_prop data f = Ok val →
  walk ct depth val (opts d) = Ok child →
  validate child = ValidationResolved violations →
  ∃ props t,
    walk ct (S (S depth)) data (OptClass c) = Ok (VInst c props)
    ∧ prop_lookup f props = Some (VPromise t)
    ∧ settle ct validate depth t = Settled (Fulfilled child)
    ∧ validated ct validate depth t = [child].
Proof.
  intros Hfield Hkind Hval Hchild Hvalid.
  destruct (walk_stores_promise ct (S depth) c f d data val Hfield Hval)
    as (props & Hw & Hf).
  exists props, (Suspended child KObject).
  split_and!; [done | | |].
  - rewrite Hf. simpl. by rewrite Hkind, Hchild.
  - rewrite <- settle_resume. simpl. by rewrite Hvalid.
  - rewrite validated_resume. simpl. by rewrite Hvalid.
Qed.

Lemma object_field_fulfils_with_instance_witness :
  ∃ props t,
    walk Family.table 4 Family.raw (OptClass "Parent") = Ok (VInst "Parent" props)
    ∧ prop_lookup "child" props = Some (VPromise t)
    ∧ settle Family.table (λ _, ValidationResolved []) 2 t = Settled (Fulfilled Family.child)
    ∧ validated Family.table (λ _, ValidationResolved []) 2 t = [Family.child].
Proof.
  refine (object_field_fulfils_with_instance Family.table (λ _, ValidationResolved []) 2
            "Parent" "child"
            {| remoteName := "Child"; opts := OptClass "Child"; type := Object |}
            Family.raw (VObj [("name", VStr "")]) Family.child [] _ _ _ _ _).
  - eexists. split_and!; [reflexivity | compute_done | reflexivity].
  - reflexivity.
  - reflexivity.
  - reflexivity.
  - reflexivity.
Defined.

(** X14.  The violations a validation resolves with are never looked at:
    with the violations of every validation forgotten, each promise of
    [parseAttribute] settles the same way and the same validations are
    called. *)
Theorem violations_are_never_inspected
    (ct : classes) (validate : value → validation) (depth : nat) (t : task) :
  settle ct (λ v, outcome_only (validate v)) depth t = settle ct validate depth t
  ∧ validated ct (λ v, outcome_only (validate v)) depth t = validated ct validate depth t.
Proof.
  split.
  - unfold settle. apply iter_ext, resume_outcome_only.
  - apply validated_within_outcome_only.
Qed.

(** X15.  The promise of an Array-kind field always settles, and its body
    calls the validation at most once per element of the sequence. *)
Theorem array_field_settles_within_its_length
    (ct : classes) (validate : value → validation) (depth depth' : nat)
    (d : IMetaData) (xs : list value) :
  type d = Array →
  (∃ o, settle ct validate depth' (parseAttribute ct (S depth) (VArr xs) (Some d))
        = Settled o)
  ∧ length (validated ct validate depth' (parseAttribute ct (S depth) (VArr xs) (Some d)))
    ≤ length xs.
Proof.
  intros Hkind. split; [apply settle_settles|].
  etransitivity; [apply validated_length|].
  simpl. rewrite Hkind. simpl. apply pending_steps_array_loop.
Qed.

Lemma array_field_settles_within_its_length_witness :
  (∃ o, settle Shop.table Shop.validate_rejecting 2
          (parseAttribute Shop.table 3
             (VArr [VObj [("label", VStr "")]; VObj [("label", VStr "blue")]])
             (Some {| remoteName := "Tags"; opts := OptClass "Tag"; type := Array |}))
        = Settled o)
  ∧ length (validated Shop.table Shop.validate_rejecting 2
              (parseAttribute Shop.table 3
                 (VArr [VObj [("label", VStr "")]; VObj [("label", VStr "blue")]])
                 (Some {| remoteName := "Tags"; opts := OptClass "Tag"; type := Array |})))
    ≤ 2.
Proof.
  refine (array_field_settles_within_its_length Shop.table Shop.validate_rejecting 2 2
            {| remoteName := "Tags"; opts := OptClass "Tag"; type := Array |}
            [VObj [("label", VStr "")]; VObj [("label", VStr "blue")]] _).
  reflexivity.
Defined.

(** X16.  When the walk of an element of the sequence at an Array-kind
    field throws (a [null] element, say), [walk] of the parent returns
    all the same; the promise of the field rejects with what the element
    threw, the elements before it having been validated and none after
    it walked. *)
Theorem array_field_rejects_at_failing_element
    (ct : classes) (validate : value → validation) (depth : nat)
    (c f : string) (d : IMetaData) (data : value)
    (xs ys : list value) (x : value) (rest : list value) (e : error) :
  field_of ct c f d →
  type d = Array →
  get_prop data f = Ok (VArr (xs ++ x :: rest)) →
  Forall2 (λ x y, walk ct depth x (opts d) = Ok y) xs ys →
  Forall (λ y, ∃ violations, validate y = ValidationResolved violations) ys →
  walk ct depth x (opts d) = Throw e →
  ∃ props t,
    walk ct (S (S depth)) data (OptClass c) = Ok (VInst c props)
    ∧ prop_lookup f props = Some (VPromise t)
    ∧ settle ct validate depth t = Settled (Rejected e)
    ∧ validated ct validate depth t = ys.
Proof.
  intros Hfield Hkind Hval Hwalk Hvalid Hx.
  destruct (walk_stores_promise ct (S depth) c f d data _ Hfield Hval)
    as (props & Hw & Hf).
  exists props, (parseAttribute ct (S depth) (VArr (xs ++ x :: rest)) (Some d)).
  split_and!; [done | done | |]; simpl; rewrite Hkind; simpl;
    by eapply (settle_array_loop_throws ct validate depth (opts d) []).
Qed.

Lemma array_field_rejects_at_failing_element_witness :
  ∃ props t,
    walk Shop.table 4
      (VObj [("id", VNum 7);
             ("tags", VArr ([VObj [("label", VStr "red")]]
                            ++ VNull :: [VObj [("label", VStr "blue")]]))])
      (OptClass "Item")
    = Ok (VInst "Item" props)
    ∧ prop_lookup "tags" props = Some (VPromise t)
    ∧ settle Shop.table (λ _, ValidationResolved []) 2 t
      = Settled (Rejected (TypeError "Cannot read properties of undefined or null"))
    ∧ validated Shop.table (λ _, ValidationResolved []) 2 t = [Shop.tag "red"].
Proof.
  refine (array_field_rejects_at_failing_element Shop.table (λ _, ValidationResolved []) 2
            "Item" "tags" {| remoteName := "Tags"; opts := OptClass "Tag"; type := Array |}
            _ [VObj [("label", VStr "red")]] [Shop.tag "red"] VNull
            [VObj [("label", VStr "blue")]] _ _ _ _ _ _ _).
  - eexists. split_and!; [reflexivity | compute_done | reflexivity].
  - reflexivity.
  - reflexivity.
  - repeat constructor.
  - repeat constructor; by eexists.
  - reflexivity.
Defined.

(** ** The module *)

Section module_more.
Context {W : Type} `{StaticDataModule W}.
Variable ct : classes.
Variable stack : nat.

(** X17.  [import] never assigns [staticData]: whether it returns or
    throws, the module holds the instance it held before. *)
Theorem import_never_assigns_staticData (m : module_state W) (data : value) :
  staticData (import ct stack data m).2 = staticData m.
Proof.
  unfold import, validate, stringify, do_store, do_load, on_backend, record,
    get_staticData, lift_result, mbind, mret, M_bind, M_ret. simpl.
  destruct (parse ct stack data); simpl; [|done].
  destruct (store _ (backend m)) as [[[]|e] w]; simpl; [|done].
  by destruct (load w) as [[s|e] w'].
Qed.

(** X18.  When the data parses and [store] throws, [import] throws the
    same error without calling [load]: the one call it made is the
    [store], with the text of the data it was given. *)
Theorem import_stops_when_store_throws
    (m : module_state W) (data parsed : value) (e : error) (w : W) :
  parse ct stack data = Ok parsed →
  truthy data = true →
  store (JSON_stringify data) (backend m) = (Throw e, w) →
  import ct stack data m
  = (Throw e, {| staticData := staticData m; backend := w;
                 calls := calls m ++ [CallStore (JSON_stringify data)] |}).
Proof.
  intros Hparse Htruthy Hstore.
  unfold import, validate, stringify, do_store, do_load, on_backend, record,
    get_staticData, lift_result, mbind, mret, M_bind, M_ret. simpl.
  rewrite Hparse. simpl. rewrite Htruthy, Hstore. done.
Qed.

(** [import] once the data has parsed and [store] has returned. *)
Lemma import_after_store
    (m : module_state W) (data parsed : value) (json : string) (w : W) :
  parse ct stack data = Ok parsed →
  json = JSON_stringify (if truthy data then data else staticData m) →
  store json (backend m) = (Ok (), w) →
  import ct stack data m
  = (match (load w).1 with Ok _ => Ok () | Throw e => Throw e end,
     {| staticData := staticData m; backend := (load w).2;
        calls := calls m ++ [CallStore json; CallLoad] |}).
Proof.
  intros Hparse Hjson Hstore. subst json.
  unfold import, validate, lift_result, mbind, M_bind. rewrite Hparse.
  unfold stringify, do_store, do_load, on_backend, record, get_staticData,
    mbind, mret, M_bind, M_ret. simpl. rewrite Hstore. simpl.
  destruct (load w) as [[s|e] w']; simpl; by rewrite <- app_assoc.
Qed.

(** X19.  What a valid [import] stores is [JSON.stringify] of its
    argument, the very value [JSON.parse] was applied to, or of the
    current [staticData] when the argument is falsy; [load] is called
    after it, and its outcome is the outcome of [import]. *)
Theorem import_stores_then_loads
    (m : module_state W) (data parsed : value) (json : string) (w : W) :
  parse ct stack data = Ok parsed →
  json = JSON_stringify (if truthy data then data else staticData m) →
  store json (backend m) = (Ok (), w) →
  import ct stack data m
  = (match (load w).1 with Ok _ => Ok () | Throw e => Throw e end,
     {| staticData := staticData m; backend := (load w).2;
        calls := calls m ++ [CallStore json; CallLoad] |}).
Proof.
  intros Hparse -> Hstore.
  unfold import, validate, stringify, do_store, do_load, on_backend, record,
    get_staticData, lift_result, mbind, mret, M_bind, M_ret. simpl.
  rewrite Hparse. simpl. rewrite Hstore. simpl.
  destruct (load w) as [[s|e] w']; simpl; by rewrite <- app_assoc.
Qed.

(** X20.  [export] changes nothing in the module.  On a module whose
    [StaticDataClass] has no annotated field it throws the [TypeError]
    of [Object.keys(undefined)]; on a class table without nesting cycle
    it returns the current [staticData] together with the schema
    [extractMetaData] gives for [StaticDataClass]. *)
Theorem export_reads_only (m : module_state W) :
  (export ct stack m).2 = m
  ∧ (ct !! StaticDataClass = None → 0 < stack →
     (export ct stack m).1
     = Throw (TypeError "Cannot convert undefined or null to object"))
  ∧ (∀ rank reg, wf_classes ct → acyclic ct rank →
       ct !! StaticDataClass = Some reg → rank StaticDataClass < stack →
       ∃ schema, extractMetaData ct stack (OptClass StaticDataClass) = Ok schema
                 ∧ own_keys schema = own_keys reg
                 ∧ (export ct stack m).1 = Ok (staticData m, schema)).
Proof.
  unfold export, get_staticData, lift_result, mbind, mret, M_bind, M_ret. simpl.
  split_and!.
  - by destruct (extractMetaData ct stack (OptClass StaticDataClass)).
  - intros Hnone Hstack. destruct stack as [|depth]; [lia|]. simpl. by rewrite Hnone.
  - intros rank reg Hwf Hacyclic Hreg Hrank.
    destruct (extractMetaData_acyclic ct rank Hwf Hacyclic stack _ reg Hreg Hrank)
      as (schema & Hschema & Hall).
    exists schema. rewrite Hschema. split_and!; [done | | done].
    clear -Hall. unfold own_keys.
    induction Hall as [|[k d] [k' e] reg out [Hk _] _ IH]; simpl in *; [done | by rewrite IH, Hk].
Qed.
End module_more.

Lemma import_stops_when_store_throws_witness :
  @import _ ReadOnly.module Shop.table 4 (VStr Demo.document) Demo.running
  = (Throw (ExternalError "EACCES"),
     {| staticData := Demo.loaded; backend := Some Demo.document;
        calls := [] ++ [CallStore Demo.document] |}).
Proof.
  refine (@import_stops_when_store_throws _ ReadOnly.module Shop.table 4 Demo.running
            (VStr Demo.document) Demo.loaded _ _ _ _ _).
  - reflexivity.
  - reflexivity.
  - reflexivity.
Defined.

Lemma import_stores_then_loads_witness :
  import Shop.table 4 (VStr Demo.document) Demo.running
  = (Ok (), {| staticData := Demo.loaded; backend := Some Demo.document;
               calls := [] ++ [CallStore Demo.document; CallLoad] |}).
Proof.
  refine (import_stores_then_loads Shop.table 4 Demo.running (VStr Demo.document)
            Demo.loaded Demo.document (Some Demo.document) _ _ _).
  - reflexivity.
  - reflexivity.
  - reflexivity.
Defined.

(** ** The local dump *)

Section dump_facts.
Context {F B : Type} `{Platform F B}.

Lemma loadDump_after_dump_to data fs fs' :
  zlib_round_trip → fs_read_after_write →
  dump_to data fs = (Ok (), fs') → loadDump fs' = (Ok data, fs').
Proof.
  intros Hzlib Hfs. unfold dump_to, loadDump.
  destruct (zlib_deflate data) as [b|e] eqn:Hdeflate; [|done].
  intros Hwrite. rewrite (Hfs _ _ _ _ Hwrite).
  destruct (Hzlib _ _ Hdeflate) as (b' & -> & ->). done.
Qed.

(** X21.  What [dump] wrote, [loadDump] reads back: after a [dump] that
    returned, [loadDump] returns the text that was dumped, which is the
    given text, or [JSON.stringify] of the current [staticData] when
    [dump] was called without argument. *)
Theorem loadDump_returns_what_dump_wrote
    `{StaticDataModule F} (data : option string) (m m' : module_state F) :
  zlib_round_trip →
  fs_read_after_write →
  dump data m = (Ok (), m') →
  loadDump (backend m')
  = (Ok (default (JSON_stringify (staticData m)) data), backend m')
  ∧ staticData m' = staticData m.
Proof.
  intros Hzlib Hfs.
  unfold dump, stringify, on_backend, get_staticData, mbind, mret, M_bind, M_ret.
  destruct data as [data|]; simpl.
  - destruct (dump_to data (backend m)) as [[[]|e] fs'] eqn:Hdump; [|done].
    intros [= <-]. simpl. split; [|done]. by apply (loadDump_after_dump_to data (backend m)).
  - destruct (dump_to (JSON_stringify (staticData m)) (backend m)) as [[[]|e] fs'] eqn:Hdump;
      [|done].
    intros [= <-]. simpl. split; [|done].
    by apply (loadDump_after_dump_to _ (backend m)).
Qed.

(** X22.  With the [load] of the class, a dump that cannot be read (no
    file, or a file zlib refuses) is no error at start-up: [setup]
    returns, the callback gets no error, the file system is left alone
    and [staticData] is a new instance without properties. *)
Theorem setup_without_readable_dump
    (cls : string) (json_parse : value → result value) (json_stringify : value → string)
    (ct : classes) (stack : nat) (m : module_state F) (e : error) :
  fs_readFile _dumpLocation (backend m) = Throw e
  ∨ (∃ b, fs_readFile _dumpLocation (backend m) = Ok b ∧ zlib_inflate b = Throw e) →
  @setup F (default_module cls json_parse json_stringify) ct stack m
  = (Ok (), {| staticData := VInst cls []; backend := backend m;
               calls := calls m ++ [CallLoad; CallCallback None] |}).
Proof.
  intros Hdump. rewrite setup_result. simpl.
  assert (loadDump (backend m) = (Throw e, backend m)) as ->; [|done].
  unfold loadDump. destruct Hdump as [->|(b & -> & ->)]; done.
Qed.

(** X23.  With the [load] and [store] of the class, an [import] of data
    that parses returns as soon as the dump could be written (the [load]
    that follows reads it back), and the next [setup] parses the text
    that was dumped: [staticData] becomes the walk of it, or a new
    instance when it does not parse. *)
Theorem import_then_setup_on_dump
    (cls : string) (json_parse : value → result value) (json_stringify : value → string)
    (ct : classes) (stack : nat) (m : module_state F)
    (data parsed : value) (json : string) (fs' : F) :
  zlib_round_trip →
  fs_read_after_write →
  @parse F (default_module cls json_parse json_stringify) ct stack data = Ok parsed →
  json = json_stringify (if truthy data then data else staticData m) →
  dump_to json (backend m) = (Ok (), fs') →
  let module := default_module cls json_parse json_stringify in
  let m' := {| staticData := staticData m; backend := fs';
               calls := calls m ++ [CallStore json; CallLoad] |} in
  @import F module ct stack data m = (Ok (), m')
  ∧ staticData (@setup F module ct stack m').2
    = match @parse F module ct stack (VStr json) with
      | Ok walked => walked
      | Throw _ => VInst cls []
      end.
Proof.
  intros Hzlib Hfs Hparse Hjson Hdump module m'.
  pose proof (loadDump_after_dump_to json (backend m) fs' Hzlib Hfs Hdump) as Hload.
  split.
  - rewrite (@import_after_store F module ct stack m data parsed json fs');
      try done. simpl. by rewrite Hload.
  - rewrite setup_result. simpl. by rewrite Hload.
Qed.
End dump_facts.

Lemma Disk_zlib_round_trip : @zlib_round_trip _ _ Disk.platform.
Proof. intros s b [= <-]. by exists s. Qed.

Lemma Disk_fs_read_after_write : @fs_read_after_write _ _ Disk.platform.
Proof.
  intros path content fs fs'. destruct path as [| |?|?|p|?|?|? ?|?]; simpl; try done.
  intros [= <-]. by rewrite prop_lookup_assign_eq.
Qed.

Lemma loadDump_returns_what_dump_wrote_witness :
  loadDump [("static.dat", String.append "z" Demo.document)]
  = (Ok (default Demo.document None), [("static.dat", String.append "z" Demo.document)])
  ∧ VUndefined = VUndefined.
Proof.
  refine (@loadDump_returns_what_dump_wrote _ _ Disk.platform Dumped.module None
            (Dumped.start []) (Dumped.start [("static.dat", String.append "z" Demo.document)])
            _ _ _).
  - exact Disk_zlib_round_trip.
  - exact Disk_fs_read_after_write.
  - reflexivity.
Defined.

Lemma setup_without_readable_dump_witness :
  @setup _ Dumped.module Shop.table 4 (Dumped.start [])
  = (Ok (), {| staticData := VInst "Item" []; backend := [];
               calls := [] ++ [CallLoad; CallCallback None] |}).
Proof.
  refine (@setup_without_readable_dump _ _ Disk.platform "Item" _ _ Shop.table 4
            (Dumped.start []) (ExternalError "ENOENT") _).
  left. reflexivity.
Defined.

Lemma import_then_setup_on_dump_witness :
  @import _ Dumped.module Shop.table 4 (VStr Demo.document) (Dumped.start [])
  = (Ok (), {| staticData := VUndefined;
               backend := [("static.dat", String.append "z" Demo.document)];
               calls := [] ++ [CallStore Demo.document; CallLoad] |})
  ∧ staticData
      (@setup _ Dumped.module Shop.table 4
         {| staticData := VUndefined;
            backend := [("static.dat", String.append "z" Demo.document)];
            calls := [] ++ [CallStore Demo.document; CallLoad] |}).2
    = match @parse _ Dumped.module Shop.table 4 (VStr Demo.document) with
      | Ok walked => walked
      | Throw _ => VInst "Item" []
      end.
Proof.
  refine (@import_then_setup_on_dump _ _ Disk.platform "Item" _ _ Shop.table 4
            (Dumped.start []) (VStr Demo.document) Demo.loaded Demo.document
            [("static.dat", String.append "z" Demo.document)] _ _ _ _ _).
  - exact Disk_zlib_round_trip.
  - exact Disk_fs_read_after_write.
  - reflexivity.
  - reflexivity.
  - reflexivity.
Defined.
